(* ===== verification/_CoqProject ===== *)
-Q . S2P
Prelude.v
Binary.v
Watermark.v
Extract.v
Resize.v
Http.v
Gemini.v
Video.v
Json.v
Server.v
Client.v
