(* ===== verification/Prelude.v ===== *)
(** * Nano-Bananary: a verification development of its image code and API glue

    The repository is a browser client and a small Node/edge server that
    forward image-editing and video-generation requests to a generative-AI
    service.  Its only self-contained algorithms are in
    [src/utils/fileUtils.ts]: the least-significant-bit watermark
    ([textToBinary], [embedWatermark]) and the aspect-preserving resize of
    [compressImage].  The rest is request plumbing: the edge handlers
    [src/api/gemini.ts] and [src/api/video.ts], the local router
    [src/server.js] and the client wrappers [src/services/geminiService.ts].

    ** How the parts interact
    The client compresses an upload ([compressImage]), posts it through
    [editImage] / [generateVideo] to [/api/gemini] or [/api/video]; the
    router [server.js] forwards the request to the handler, which calls the
    remote SDK and maps its answer or its exception to an HTTP status and a
    JSON body; the client turns a non-ok answer into an [Error].  After an
    edit the client may call [embedWatermark] on the returned image: it
    draws the image on a canvas, reads the RGBA buffer, writes the bits of
    [text ++ "::END"] into the low bit of the R, G, B channels and re-encodes
    the canvas as PNG.  The extractor the spec describes (section 4.2) is not
    in the repository; it is modelled from the spec so that the round trip
    of the codec can be stated.

    ** Files, in dependency order
    - [Prelude] (this file): the notation scope [nb_scope] (JS string
      literals as lists of UTF-16 code units, written [⟪"..."⟫]), the
      [Settled] outcome of a promise, the tactic [bool_cases], the hint
      databases [nb] and [nb_len], and generic lemmas shared by the
      components: [occurs] / [ends_with] / [borderless] on lists, string
      concatenation, [pixel_ind] (induction over a buffer four bytes at a
      time), [byte_forall] (a decidable property of all 256 byte values
      checked by [vm_compute]).
    - [Binary]: [Number.prototype.toString(2)] ([toString2]),
      [String.prototype.padStart] ([padStart]), [parseInt(_, 2)] on one
      digit ([parseBit]), [charToBinary] and [textToBinary]
      (fileUtils.ts lines 129-133), and [bits_value], the number a list of
      bits denotes.
    - [Watermark]: [embedWatermark] (fileUtils.ts lines 141-183).  The
      canvas buffer is [ImageData.data], a [list Z] standing for the
      [Uint8ClampedArray], read with [!!] ([read_byte]: a missing byte
      reads as 0, as [undefined & 0xFE] does) and written with stdpp's list
      insert (ignored past the end, as a typed array does).  The two nested
      [for] loops are [embed_channels] (inner, [j < 3]) and [embed_pixels]
      (outer, [i += 4], with fuel); [embedWatermark] is the whole promise:
      the context guard, the load error, the delimiter, the capacity guard
      and the loop.  [embed_ref] is a pixel-by-pixel reference for the
      loop and [embedded_value] its per-byte formula.
    - [Extract]: the extractor of the spec's section 4.2, which the
      repository does not have (spec-modelled): [rgb_channels],
      [bytes_of_bits], [scan], [extract].
    - [Resize]: [compressImage] (fileUtils.ts lines 11-67): the size
      computation on exact rationals ([resizeDims]; JS rounds the two
      quotients to doubles, which keeps the bounds proved here by monotone
      rounding but not an exact aspect ratio), the [unsigned long] conversion of the canvas size
      ([to_unsigned_long], [canvasDims]), [outputMimeType], [split_comma]
      and the promise with its four reject paths; [FileReader], the decoder
      and [toDataURL] are inputs.  Also [fileToBase64] (the defaults),
      [loadImage] and [resizeImageToMatch] (lines 69-121).
    - [Http]: what the handlers and the router share: a thrown value
      ([JsError]), [HttpResponse], the fields of [JSON.parse(message).error]
      ([ParsedApiError]), [truthy], [includes], [join], and the exception
      monad of a [try] block (stdpp's [MBind] on [JsError + _]) with
      [rethrow], the client's [catch].
    - [Gemini]: [handler] of [src/api/gemini.ts]: the method and key
      guards, [build_parts], the response fold [collect_result] /
      [add_part], [no_image_message] and the [catch] block [handle_error];
      [req.json()] and [generateContent] are inputs of the handler and
      [JSON.parse] a Section variable ([json_parse]).
    - [Video]: [handler] of [src/api/video.ts] ([video_handler]): the
      guards, [build_request], the unbounded [while (!operation.done)]
      loop as a fuel interpreter [poll_loop] over the sequence of poll
      answers and as a step relation [poll_step] on [LoopState], [finish]
      and the [catch] block [handle_video_error].
    - [Json]: bodies as JSON values ([json], after QCert's JSON model), the
      [ToJson] class with the handlers' [JSON.stringify] objects as
      instances, the client's property reads ([jprop], [jtruthy]) and the
      types of bodies ([jtype], [has_type], [GeneratedContentT]).
    - [Server]: the request listener of [src/server.js] ([serve]): CORS,
      [OPTIONS], [pathname] routing, [read_body], the header [reduce]
      ([flatten_headers] into a [gmap]), [make_request] (the Web
      [Request], which throws for a forbidden method such as [TRACE],
      normalises the method, and throws for [GET]/[HEAD] with a body),
      [forward],
      404 and the [catch]; the handlers are reached through the record
      [Endpoint], implemented by [gemini_endpoint] and [video_endpoint],
      and the class [EndpointTyped] is the typing promise the router's
      theorem is proved against (instances for both endpoints).  The dev
      proxy of [src/vite.config.ts] is [vite_proxy].
    - [Client]: [editImage] and [generateVideo] of
      [src/services/geminiService.ts] with [fetch] as an input, and the
      dev setup [through] (proxy, router, endpoints) they are composed with.

    ** What the theorems show
    - Watermark: the index loop terminates within its fuel and equals the
      reference ([embed_loop_ref]); the promise settles exactly unless the
      canvas has a zero side, where [getImageData] throws inside [onload]
      and it never settles ([embedWatermark_settles]); the skip guard is
      exact on canvases of positive area ([embedWatermark_skip]); per byte
      the output is the reference value ([embedWatermark_channels]), alpha
      is never written ([embedWatermark_alpha]), and every byte stays a
      byte that differs at most in its low bit ([embedWatermark_lsb_only]).
    - Binary: a code unit below 256 becomes exactly 8 digits that read back
      as itself ([charToBinary_byte]); a code unit of 256 or more becomes
      more than 8 ([charToBinary_overlong]).
    - Extract: the round trip [extract_embedWatermark] for Latin-1 text
      without ["::END"] that fits; its two failures in general: a text with
      a code unit of 256 or more is never read back from any embedded image
      ([extract_embedWatermark_non_latin1]), and [a ++ "::END" ++ b] is
      read back as [a] ([extract_embedWatermark_inner_delimiter]); an image
      whose bytes all have a clear low bit reads as [PayloadNotFound].
    - Resize: nothing is enlarged ([resizeDims_no_upsize]),
      [fileToBase64] only encodes canvases within 1920 x 1920
      ([fileToBase64_bounded]), and two findings on concrete sizes (a
      non-square bound does not bound the smaller side; the canvas
      truncates).  [compressImage_resolved] characterises resolution and
      the PNG/JPEG choice.
    - Gemini: the fold over the response parts equals a declarative
      description ([collect_result_spec]: last image, texts joined by
      newlines); 200 exactly when an image came back ([handler_success]);
      the guards; the statuses used; the 400 messages; the mapping of
      exceptions to 451 / 429 / 500 ([handle_error_codes]); the shape of
      the request parts.
    - Video: the interpreter and the step relation agree
      ([poll_loop_exits]); every reachable loop state holds the latest
      answer after unfinished ones only ([poll_inv_reachable]); the loop diverges when no poll reports the
      operation done ([poll_loop_diverges]) and the handler then never
      answers ([video_handler_hangs]); 200 exactly with a finished,
      error-free operation with a link ([video_handler_success]); the
      statuses used.
    - Server: the header [reduce] ([flatten_headers_lookup]); CORS on every
      answer; [OPTIONS] and 404; every non-[OPTIONS] answer is a typed JSON
      body, proved against [EndpointTyped] ([serve_typed]); the Gemini
      answer is forwarded unchanged ([serve_forwards_gemini]); a [GET] with
      a body or a [TRACE] gets 500 instead of the handler's 405
      ([serve_get_with_body], [serve_forbidden_method]).
    - Client: end to end through proxy, router and handler, [editImage]
      and [generateVideo] settle exactly as the handler answers
      ([editImage_end_to_end], [generateVideo_end_to_end]); the polling
      hang reaches the user as a [generateVideo] that never settles
      ([generateVideo_hangs]); with the router down both reject with the
      proxy's message.

    ** Bounds and fuel
    The outer [for] loop advances [i] by 4 and stops at [data.length]; it
    runs at most [length data / 4 + 1] times, so the fuel [S (length data)]
    is enough: [embed_pixels_spec] needs [(length post + 3) / 4 < fuel] and
    [embed_loop_ref] shows the loop returns [Some] with that fuel.  The
    capacity test [binaryMessage.length > data.length / 4 * 3] is exact in
    IEEE doubles for buffers below 2^51 bytes and is modelled as
    [3 * length data < 4 * length msg] on naturals.  Bytes are [Z] kept in
    [0, 255] ([is_byte]); the write [(v & 0xFE) | bit] cannot leave that
    range ([lsb_set_byte_flip]), so the clamping of [Uint8ClampedArray] is
    never exercised.  The video polling loop has no bound in the source:
    its fuel is a parameter of [video_handler], [None] meaning "still
    polling"; more fuel than the number of polls the step relation makes
    gives the answer ([poll_loop_exits]), and no fuel does when the
    operation is never done ([poll_loop_diverges]).  The canvas size is an
    [unsigned long]: [to_unsigned_long] reduces modulo 2^32, which the
    sizes up to 1920 never reach ([canvasDims_square]).

    ** Plan for later sittings
    - An interface ([Class] with laws) for the watermark codec, with
      [Watermark] and [Extract] as its instance.
    - The parse side of the request bodies ([req.json()] and the
      destructuring), today an input of the endpoints.

    ** Not modelled
    Canvas rendering and resampling of pixels ([drawImage]), PNG/JPEG
    encoding ([toDataURL]), [FileReader], the JSON text ([JSON.stringify]
    and [JSON.parse] are seen through the values they denote),
    [dataUrlToFile] and [downloadImage] (fetch, Blob and DOM I/O),
    [dotenv] and [server.listen], [console.error], the ['@'] alias of
    [vite.config.ts] (build configuration) and [test/api.test.ts] (a manual
    test script): they are I/O or library calls with no logic of the
    repository's own.  [pathname] covers the origin-form request targets
    the dev proxy sends, not absolute URLs. *)

From stdpp Require Import list strings.
From Stdlib Require Import ZArith Ascii Lia.

Declare Scope nb_scope.
Delimit Scope nb_scope with nb.

(** ** JS strings

    A JS string is a sequence of UTF-16 code units; [String.prototype.split('')]
    and [charCodeAt(0)] see exactly these units.  Literals of the source are
    ASCII, so they are written with [⟪"..."⟫]. *)

Abbreviation jsstring := (list Z) (only parsing).

Definition js_of_string (s : string) : list Z :=
  map (λ a, Z.of_nat (nat_of_ascii a)) (String.list_ascii_of_string s).

Notation "⟪ s ⟫" := (js_of_string s%string) (format "⟪ s ⟫") : nb_scope.
Open Scope nb_scope.

(** Associativity of string concatenation ([+:+], JS [+] on strings). *)
(** stdpp makes [String.append] [simpl never]: one step is unfolded by
    [change]. *)
Lemma string_app_cons x (a b : string) : String x a +:+ b = String x (a +:+ b).
Proof. reflexivity. Qed.

Lemma string_app_assoc (a b c : string) : (a +:+ b) +:+ c = a +:+ (b +:+ c).
Proof. induction a as [|x a IH]; [done|]. by rewrite !string_app_cons, IH. Qed.

Lemma string_app_nil_r (a : string) : a +:+ "" = a.
Proof. induction a as [|x a IH]; [done|]. by rewrite string_app_cons, IH. Qed.

(** A value that fits in one byte ([Uint8ClampedArray] element, 8-bit code unit). *)
Definition is_byte (v : Z) : Prop := (0 ≤ v < 256)%Z.
#[export] Instance is_byte_dec v : Decision (is_byte v).
Proof. unfold is_byte. apply _. Defined.

(** A binary digit value. *)
Definition is_bit (b : Z) : Prop := b = 0%Z ∨ b = 1%Z.
#[export] Instance is_bit_dec b : Decision (is_bit b).
Proof. unfold is_bit. apply _. Defined.

(** ** Promises

    How a [new Promise((resolve, reject) => ...)] of the source settles: the
    value passed to [resolve], or the message of the [Error] passed to
    [reject]. *)
Inductive Settled (A : Type) : Type :=
  | Resolved (a : A)
  | Rejected (msg : string).
Arguments Resolved {A} a.
Arguments Rejected {A} msg.

(** ** Searching a list for a fixed sequence *)

Section Occurs.
Context {A : Type} `{!EqDecision A}.

(** [occurs d s]: [d] appears as a contiguous block of [s]. *)
Fixpoint occurs (d s : list A) : bool :=
  bool_decide (d `prefix_of` s) ||
  match s with [] => false | _ :: s' => occurs d s' end.

(** [ends_with d s]: [s] ends with [d] ([String.prototype.endsWith]). *)
Definition ends_with (d s : list A) : bool := bool_decide (d `suffix_of` s).

Lemma occurs_spec d s : occurs d s = true ↔ ∃ a b, s = a ++ d ++ b.
Proof.
  induction s as [|x s IH]; simpl; rewrite orb_true_iff, bool_decide_eq_true.
  - split.
    + intros [[b Hb]|?]; [by exists [], b | done].
    + intros ([|y a] & b & Hs); [left; by exists b | done].
  - rewrite IH. split.
    + intros [[b Hb]|(a & b & Hs)]; [by exists [], b|].
      exists (x :: a), b. by rewrite Hs.
    + intros ([|y a] & b & Hs); simpl in Hs; [left; by exists b|].
      injection Hs as -> Hs. right. by exists a, b.
Qed.

Lemma occurs_app_r d s t : occurs d s = true → occurs d (s ++ t) = true.
Proof.
  rewrite !occurs_spec. intros (a & b & ->). exists a, (b ++ t).
  by rewrite <- !(assoc_L (++)).
Qed.

Lemma occurs_infix (a d b s : list A) :
  occurs (a ++ d ++ b) s = true → occurs d s = true.
Proof.
  rewrite !occurs_spec. intros (x & y & ->). exists (x ++ a), (b ++ y).
  by rewrite <- !(assoc_L (++)).
Qed.

Lemma ends_with_spec d s : ends_with d s = true ↔ ∃ a, s = a ++ d.
Proof. unfold ends_with. by rewrite bool_decide_eq_true. Qed.

(** [borderless d]: no proper non-empty prefix of [d] is also a suffix of
    [d].  For such a delimiter a match can only start after the end of an
    earlier text that does not contain it. *)
Definition borderless (d : list A) : bool :=
  forallb (λ j, bool_decide (take j d ≠ drop (length d - j) d))
    (seq 1 (length d - 1)).

Lemma borderless_spec d j :
  borderless d = true → 0 < j < length d → take j d ≠ drop (length d - j) d.
Proof.
  unfold borderless. rewrite forallb_forall. intros H Hj.
  apply (bool_decide_eq_true_1 _), H, in_seq. lia.
Qed.

(** A text [t] without [d], followed by a proper prefix of a borderless
    [d], does not end with [d]. *)
Lemma ends_with_take_false d t j :
  borderless d = true → occurs d t = false → j < length d →
  ends_with d (t ++ take j d) = false.
Proof.
  intros Hb Ht Hj. apply not_true_iff_false. rewrite ends_with_spec.
  intros [a Ha]. apply app_eq_app in Ha as [k [[-> Hk]|[-> Hk]]].
  - destruct (decide (j = 0)) as [->|Hj0].
    + rewrite take_0, app_nil_r in Hk. subst k.
      assert (Hocc : occurs d (a ++ d) = true).
      { apply occurs_spec. exists a, []. by rewrite app_nil_r. }
      congruence.
    + assert (Hlen : length k = length d - j).
      { apply (f_equal length) in Hk. rewrite length_app, length_take in Hk. lia. }
      apply (borderless_spec d j Hb); [lia|].
      rewrite <- Hlen. rewrite Hk at 2. by rewrite drop_app_length.
  - apply (f_equal length) in Hk. rewrite length_app, length_take in Hk. lia.
Qed.
End Occurs.

(** ** Induction over a buffer of 4-byte pixels *)

Lemma pixel_ind {A} (P : list A → Prop) :
  (∀ d, length d < 4 → P d) →
  (∀ r g b a rest, P rest → P (r :: g :: b :: a :: rest)) →
  ∀ d, P d.
Proof.
  intros Hshort Hpx d. remember (length d) as n eqn:Hn. revert d Hn.
  induction n as [n IH] using lt_wf_ind. intros d ->.
  destruct d as [|r [|g [|b [|a rest]]]]; try (apply Hshort; simpl; lia).
  apply Hpx, (IH (length rest)); simpl; [lia|done].
Qed.

(** [lia] does not reason about [Nat.div] with a variable numerator; one
    more pixel is one more quotient step. *)
Lemma div_add_4 x : ((x + 4) / 4 = x / 4 + 1)%nat.
Proof. replace (x + 4)%nat with (x + 1 * 4)%nat by lia. by rewrite Nat.div_add by lia. Qed.

Lemma mod_add_4 x : ((x + 4) mod 4 = x mod 4)%nat.
Proof. replace (x + 4)%nat with (x + 1 * 4)%nat by lia. by rewrite Nat.Div0.mod_add. Qed.

(** A decidable property of bytes holds of every byte when it holds of
    [0 .. 255]; the check runs by [vm_compute]. *)
Lemma byte_forall (P : Z → Prop) `{!∀ v, Decision (P v)} :
  forallb (λ n, bool_decide (P (Z.of_nat n))) (seq 0 256) = true →
  ∀ v, is_byte v → P v.
Proof.
  intros Hall v [Hlo Hhi]. rewrite forallb_forall in Hall.
  specialize (Hall (Z.to_nat v)). rewrite in_seq, Z2Nat.id in Hall by lia.
  apply (bool_decide_eq_true_1 _), Hall. lia.
Qed.

(** ** Boolean tests

    [bool_cases] replaces each boolean comparison of the goal by the
    proposition it reflects, one case per outcome. *)

Ltac bool_cases :=
  repeat match goal with
  | |- context [Nat.ltb ?a ?b] => destruct (Nat.ltb_spec a b)
  | |- context [Nat.leb ?a ?b] => destruct (Nat.leb_spec a b)
  | |- context [Nat.eqb ?a ?b] => destruct (Nat.eqb_spec a b)
  | |- context [Z.ltb ?a ?b] => destruct (Z.ltb_spec a b)
  | |- context [Z.leb ?a ?b] => destruct (Z.leb_spec a b)
  | |- context [Z.eqb ?a ?b] => destruct (Z.eqb_spec a b)
  end.

(** [nb] collects the component lemmas that [auto] and [eauto] use;
    [nb_len] rewrites lengths of list operations. *)
Create HintDb nb discriminated.
Create Rewrite HintDb nb_len.
#[export] Hint Rewrite @length_app @length_replicate @length_insert @length_take
  @length_drop @length_map @length_cons : nb_len.
