(* ===== verification/Binary.v ===== *)
(** * Binary: the bit string of a watermark text

    [textToBinary] of [src/utils/fileUtils.ts] (lines 129-133) maps every
    UTF-16 code unit of the text to [charCodeAt(0).toString(2).padStart(8, '0')]
    and joins the pieces.  This file models [Number.prototype.toString] in
    base 2 ([toString2]), [String.prototype.padStart] with a one-character pad
    ([padStart]), [parseInt(c, 2)] on one digit as the embedding loop uses it
    ([parseBit]), and proves that a code unit below 256 becomes exactly eight
    digits that read back as the code unit, while a code unit of 256 or more
    becomes more than eight digits. *)

From stdpp Require Import list strings.
From Stdlib Require Import ZArith Ascii Lia.
From S2P Require Import Prelude.

Local Open Scope Z_scope.

(** ** Definitions *)

(** Binary digits of a positive number, most significant first. *)
Fixpoint pos_to_binary (p : positive) : list ascii :=
  match p with
  | xH => ["1"%char]
  | xO q => pos_to_binary q ++ ["0"%char]
  | xI q => pos_to_binary q ++ ["1"%char]
  end.

(** [n.toString(2)] for an integer [n] (a negative number gets a sign). *)
Definition toString2 (n : Z) : list ascii :=
  match n with
  | Z0 => ["0"%char]
  | Zpos p => pos_to_binary p
  | Zneg p => "-"%char :: pos_to_binary p
  end.

(** [s.padStart(target, pad)] with a one-character [pad]: nothing is added
    when [s] is already [target] long or longer. *)
Definition padStart (target : nat) (pad : ascii) (s : list ascii) : list ascii :=
  replicate (target - length s) pad ++ s.

(** [parseInt(c, 2)] for the one-character strings of the message, as used
    in [(data[i + j] & 0xFE) | bit]: ["1"] gives 1, ["0"] gives 0, any other
    character gives [NaN], which [|] converts to 0. *)
Definition parseBit (c : ascii) : Z := if ascii_dec c "1" then 1 else 0.

(** The callback of [text.split('').map(...)]. *)
Definition charToBinary (c : Z) : list ascii := padStart 8 "0" (toString2 c).

(** [textToBinary text = text.split('').map(charToBinary).join('')]. *)
Definition textToBinary (text : list Z) : list ascii := concat (map charToBinary text).

(** The number a list of bit values denotes, most significant first
    ([parseInt(bits, 2)] on a string of bits). *)
Definition bits_value (bs : list Z) : Z := fold_left (λ acc b, 2 * acc + b) bs 0.

(** ** Lemmas *)

Lemma parseBit_is_bit c : is_bit (parseBit c).
Proof. unfold parseBit, is_bit. destruct (ascii_dec c "1"); auto. Qed.
#[export] Hint Resolve parseBit_is_bit : nb.

Lemma bits_value_snoc bs b : bits_value (bs ++ [b]) = 2 * bits_value bs + b.
Proof. unfold bits_value. by rewrite fold_left_app. Qed.

Lemma bits_value_zeros n bs : bits_value (replicate n 0 ++ bs) = bits_value bs.
Proof.
  unfold bits_value. rewrite fold_left_app.
  enough (fold_left (λ acc b, 2 * acc + b) (replicate n 0) 0 = 0) as -> by done.
  induction n as [|n IH]; [done|]. simpl. by rewrite Z.mul_0_r.
Qed.

Lemma length_pos_to_binary p : length (pos_to_binary p) = Pos.size_nat p.
Proof. induction p; simpl; autorewrite with nb_len; simpl; lia. Qed.

Lemma bits_value_pos_to_binary p :
  bits_value (map parseBit (pos_to_binary p)) = Zpos p.
Proof.
  induction p as [p IH|p IH|]; simpl; try reflexivity;
    rewrite map_app; cbn [map]; rewrite bits_value_snoc, IH;
    vm_compute (parseBit _); lia.
Qed.

(** [Pos.size_nat p] is the number of binary digits of [p]: [p] is below
    [2 ^ size], and below [2 ^ n] only if [size ≤ n]. *)
Lemma pos_lt_pow_size p : Zpos p < 2 ^ Z.of_nat (Pos.size_nat p).
Proof.
  induction p as [p IH|p IH|]; cbn [Pos.size_nat]; [| |reflexivity];
    rewrite Nat2Z.inj_succ, Z.pow_succ_r by lia; lia.
Qed.
Lemma pos_size_le_pow p n : Zpos p < 2 ^ Z.of_nat n → (Pos.size_nat p ≤ n)%nat.
Proof.
  revert n. induction p as [p IH|p IH|]; intros [|n] Hp; cbn [Pos.size_nat] in *; try lia;
    rewrite Nat2Z.inj_succ, Z.pow_succ_r in Hp by lia;
    apply le_n_S, IH; lia.
Qed.

Lemma digits_zero_padding n s :
  bits_value (map parseBit (padStart n "0" s)) = bits_value (map parseBit s).
Proof.
  unfold padStart. rewrite map_app.
  rewrite (fmap_replicate parseBit _ "0"%char : map parseBit (replicate _ _) = _).
  apply bits_value_zeros.
Qed.

Lemma length_padStart n pad s : length (padStart n pad s) = Nat.max n (length s).
Proof. unfold padStart. rewrite length_app, length_replicate. lia. Qed.

Lemma length_textToBinary_ge text : (8 * length text ≤ length (textToBinary text))%nat.
Proof.
  unfold textToBinary. induction text as [|c text IH]; simpl; [lia|].
  rewrite length_app. unfold charToBinary at 1. rewrite length_padStart. lia.
Qed.

Lemma length_charToBinary_pos p :
  length (charToBinary (Zpos p)) = Nat.max 8 (Pos.size_nat p).
Proof.
  unfold charToBinary, padStart. simpl.
  rewrite length_app, length_replicate, length_pos_to_binary. lia.
Qed.

(** ** The 8-bit framing of [textToBinary] *)

(** (C12) A code unit below 256 becomes exactly eight binary digits, and
    those digits read back, most significant first, as the code unit. *)
Theorem charToBinary_byte c :
  is_byte c →
  length (charToBinary c) = 8%nat ∧ bits_value (map parseBit (charToBinary c)) = c.
Proof.
  unfold is_byte. intros Hc. destruct c as [|p|p]; [done| |lia]. split.
  - rewrite length_charToBinary_pos.
    assert (Pos.size_nat p ≤ 8)%nat by (apply pos_size_le_pow; simpl; lia). lia.
  - unfold charToBinary. rewrite digits_zero_padding. apply bits_value_pos_to_binary.
Qed.

Lemma charToBinary_byte_witness :
  is_byte 104 ∧ length (charToBinary 104) = 8%nat ∧ bits_value (map parseBit (charToBinary 104)) = 104.
Proof.
  assert (H : is_byte 104) by (unfold is_byte; lia).
  split; [exact H|]. apply (charToBinary_byte 104 H).
Defined.

(** A code unit of 256 or more (any character outside Latin-1) becomes
    more than eight digits, so the fixed 8-bit framing the delimiter search
    relies on is lost from that character on. *)
Theorem charToBinary_overlong c :
  256 ≤ c → (8 < length (charToBinary c))%nat.
Proof.
  intros Hc. destruct c as [|p|p]; [lia| |lia].
  pose proof (pos_lt_pow_size p) as Hhi.
  rewrite length_charToBinary_pos.
  assert (8 < Pos.size_nat p)%nat; [|lia].
  apply Nat2Z.inj_lt, (Z.pow_lt_mono_r_iff 2); lia.
Qed.

Lemma charToBinary_overlong_witness :
  256 ≤ 256 ∧ (8 < length (charToBinary 256))%nat.
Proof. split; [lia|]. apply (charToBinary_overlong 256). lia. Defined.

Lemma length_textToBinary text :
  Forall is_byte text → length (textToBinary text) = (8 * length text)%nat.
Proof.
  unfold textToBinary. induction 1 as [|c text Hc _ IH]; [done|].
  simpl. rewrite length_app, IH, (proj1 (charToBinary_byte c Hc)). lia.
Qed.

Example charToBinary_h : charToBinary 104 = ["0"; "1"; "1"; "0"; "1"; "0"; "0"; "0"]%char.
Proof. reflexivity. Qed.

Example textToBinary_hi_delimited : length (textToBinary ⟪"hi::END"⟫) = 56%nat.
Proof. reflexivity. Qed.
