(* ===== verification/Watermark.v ===== *)
(** * Watermark: [embedWatermark] of [src/utils/fileUtils.ts]

    The canvas buffer [ctx.getImageData(0, 0, w, h).data] is a
    [Uint8ClampedArray] of [4 * w * h] bytes, RGBA, row-major; it is a
    [list Z] here, read with [!!] and written with stdpp's list [insert],
    which (like a typed array) ignores a write past the end.  The two nested
    [for] loops of lines 166-175 are [embed_channels] (inner, [j] from 0 to 2)
    and [embed_pixels] (outer, [i] by steps of 4, with fuel); the callback
    of [img.onload] with its capacity guard, and the reject paths, are
    [embedWatermark].  [embed_ref] walks the buffer pixel by pixel and is the
    reference the loop is proved equal to; the per-channel formula
    [embed_ref_lookup] then gives the alpha, low-bit and range properties. *)

From stdpp Require Import list strings.
From Stdlib Require Import ZArith Ascii Lia.
From S2P Require Import Prelude Binary.

Local Open Scope Z_scope.

(** ** Data *)

(** [ImageData]: the canvas size and its RGBA bytes. *)
Record ImageData := mkImageData {
  width : nat;
  height : nat;
  data : list Z
}.

(** A buffer as the canvas returns it: [4 * width * height] bytes. *)
Definition image_wf (img : ImageData) : Prop :=
  length (data img) = (4 * width img * height img)%nat ∧ Forall is_byte (data img).

(** What [img.onload] / [img.onerror] deliver: the decoded image drawn on
    the canvas (its pixel buffer), or a load failure. *)
Inductive ImageLoad :=
  | Loaded (img : ImageData)
  | LoadFailed.

(** The data URL the promise resolves with: the caller's URL unchanged, or
    [canvas.toDataURL('image/png')] of a canvas holding the given pixels
    (the PNG encoding itself is not modelled). *)
Inductive DataUrl :=
  | OriginalUrl (url : string)
  | CanvasPng (img : ImageData).

(** The delimiter appended to the text, line 156. *)
Definition delimiter : list Z := ⟪"::END"⟫.

(** ** Operations *)

(** [data[k]] of a typed array: [undefined] past the end, and
    [undefined & 0xFE] is 0, so a missing byte reads as 0 in line 172. *)
Definition read_byte (d : list Z) (k : nat) : Z := default 0 (d !! k).

(** [(v & 0xFE) | bit]: clear the low bit, then set it to [bit]. *)
Definition lsb_set (v bit : Z) : Z := Z.lor (Z.land v 254) bit.

(** The inner loop
    [for (let j = 0; j < 3 && messageIndex < binaryMessage.length; j++)];
    [n] counts the iterations left ([3 - j]).  [binaryMessage[k]] past the
    end is [undefined], whose [parseInt] is [NaN], i.e. 0 under [|]. *)
Fixpoint embed_channels (n : nat) (i j mi : nat) (msg : list ascii) (d : list Z)
    : list Z * nat :=
  match n with
  | O => (d, mi)
  | S n' =>
      if (mi <? length msg)%nat then
        let bit := from_option parseBit 0 (msg !! mi) in
        embed_channels n' i (S j) (S mi) msg
          (<[(i + j)%nat := lsb_set (read_byte d (i + j)) bit]> d)
      else (d, mi)
  end.

(** The outer loop
    [for (let i = 0; i < data.length && messageIndex < binaryMessage.length; i += 4)];
    [None] when the fuel runs out before the loop condition fails. *)
Fixpoint embed_pixels (fuel : nat) (i mi : nat) (msg : list ascii) (d : list Z)
    : option (list Z) :=
  match fuel with
  | O => None
  | S fuel' =>
      if (i <? length d)%nat && (mi <? length msg)%nat then
        let '(d', mi') := embed_channels 3 i 0 mi msg d in
        embed_pixels fuel' (i + 4) mi' msg d'
      else Some d
  end.

(** The loop started at [i = 0], [messageIndex = 0]; [length d] iterations
    of fuel and one for the final test are more than the [length d / 4 + 1]
    the loop needs. *)
Definition embed_loop (msg : list ascii) (d : list Z) : option (list Z) :=
  embed_pixels (S (length d)) 0 0 msg d.

(** The [img.onload] callback of lines 151-179 together with the guard of
    lines 145-147 and the [img.onerror] path (line 180).  [None] is a
    promise that never settles: [getImageData(0, 0, w, h)] (line 158)
    throws an [IndexSizeError] when [w] or [h] is 0, inside [onload], so
    neither [resolve] nor [reject] is called.  The loop cannot run out of
    fuel ([embed_loop_ref]). *)
Definition embedWatermark (has_ctx : bool) (imageUrl : string) (text : list Z)
    (load : ImageLoad) : option (Settled DataUrl) :=
  if negb has_ctx then Some (Rejected "Could not get canvas context.")
  else
    match load with
    | LoadFailed => Some (Rejected "Failed to load image for watermarking.")
    | Loaded img =>
        let watermarkText := text ++ delimiter in
        let binaryMessage := textToBinary watermarkText in
        if (width img =? 0)%nat || (height img =? 0)%nat then None
        else if (3 * length (data img) <? 4 * length binaryMessage)%nat then
          Some (Resolved (OriginalUrl imageUrl))
        else
          match embed_loop binaryMessage (data img) with
          | Some d' => Some (Resolved (CanvasPng (mkImageData (width img) (height img) d')))
          | None => None
          end
    end.

(** ** Reference definition *)

(** Write bits into the low bits of the first [n] values, as far as both
    lists reach. *)
Fixpoint chan_ref (n : nat) (vs bits : list Z) : list Z :=
  match n, vs, bits with
  | S n', v :: vs', b :: bits' => lsb_set v b :: chan_ref n' vs' bits'
  | _, _, _ => vs
  end.

(** One pixel at a time: R, G, B take the next three bits, A is kept; a
    trailing partial pixel takes what it can. *)
Fixpoint embed_ref (d bits : list Z) : list Z :=
  match d with
  | r :: g :: b :: a :: rest => chan_ref 3 [r; g; b] bits ++ a :: embed_ref rest (drop 3 bits)
  | _ => chan_ref 3 d bits
  end.

(** ** The loops implement the reference *)

Lemma chan_ref_nil n vs : chan_ref n vs [] = vs.
Proof. by destruct n, vs. Qed.

Lemma length_chan_ref n vs bits : length (chan_ref n vs bits) = length vs.
Proof.
  revert vs bits. induction n as [|n IH]; intros [|v vs] [|b bits]; simpl; auto.
Qed.
#[export] Hint Rewrite length_chan_ref : nb_len.

Lemma chan_ref_pixel r g b a rest bits :
  chan_ref 3 (r :: g :: b :: a :: rest) bits = chan_ref 3 [r; g; b] bits ++ a :: rest.
Proof. by destruct bits as [|? [|? [|? ?]]]. Qed.

Lemma embed_ref_nil d : embed_ref d [] = d.
Proof.
  induction d as [d Hd|r g b a rest IH] using pixel_ind.
  - destruct d as [|? [|? [|? [|? ?]]]]; simpl in *; done || lia.
  - simpl. by rewrite IH.
Qed.

Lemma embed_ref_short d bits : (length d < 4)%nat → embed_ref d bits = chan_ref 3 d bits.
Proof. intros. destruct d as [|? [|? [|? [|? ?]]]]; simpl in *; done || lia. Qed.

Lemma drop_bits_gone {A} (l : list A) mi : (length l ≤ mi)%nat → drop mi l = [].
Proof. intros. by apply drop_ge. Qed.

Section Loop.
Context (msg : list ascii) (i : nat).
Local Abbreviation bits := (map parseBit msg).

(** Writes at or past the end of the buffer are ignored. *)
Lemma embed_channels_past_end n j mi d :
  (length d ≤ i + j)%nat →
  embed_channels n i j mi msg d = (d, (mi + Nat.min n (length msg - mi))%nat).
Proof.
  revert j mi. induction n as [|n IH]; intros j mi Hd; cbn [embed_channels]; [f_equal; lia|].
  bool_cases; [|f_equal; lia].
  rewrite list_insert_ge by lia. rewrite IH by lia. f_equal. lia.
Qed.

Lemma embed_channels_spec n j mi pre post :
  length pre = (i + j)%nat →
  embed_channels n i j mi msg (pre ++ post) =
    (pre ++ chan_ref n post (drop mi bits), (mi + Nat.min n (length msg - mi))%nat).
Proof.
  revert j mi pre post. induction n as [|n IH]; intros j mi pre post Hpre.
  { cbn [embed_channels]. destruct post; f_equal; lia. }
  cbn [embed_channels]. bool_cases.
  - destruct (lookup_lt_is_Some_2 msg mi) as [c Hc]; [lia|].
    rewrite (drop_S _ (parseBit c)) by (by rewrite list_lookup_fmap, Hc).
    rewrite Hc. cbn [from_option].
    destruct post as [|v post]; cbn [chan_ref].
    + rewrite app_nil_r, list_insert_ge by lia.
      rewrite embed_channels_past_end by lia. f_equal; lia.
    + unfold read_byte. rewrite <- Hpre, lookup_app_r, Nat.sub_diag by lia.
      rewrite insert_app_r_alt, Nat.sub_diag by lia. cbn [default lookup list_lookup insert list_insert].
      rewrite (cons_middle _ pre), (assoc_L (++)), IH
        by (rewrite length_app; simpl; lia).
      rewrite <- (assoc_L (++)). f_equal; lia.
  - rewrite drop_bits_gone by (rewrite length_map; lia).
    rewrite chan_ref_nil. f_equal; lia.
Qed.

(** Three bits consumed, or all that were left. *)
Lemma drop_after_pixel mi :
  drop (mi + Nat.min 3 (length msg - mi)) bits = drop 3 (drop mi bits).
Proof.
  rewrite drop_drop. destruct (decide (mi + 3 ≤ length msg)%nat).
  - f_equal. lia.
  - rewrite (drop_bits_gone _ (mi + _)), (drop_bits_gone _ (mi + 3)); [done| |];
      rewrite length_map; lia.
Qed.

(** Once [i] is past the end the outer loop stops. *)
Lemma embed_pixels_stop fuel mi d :
  (length d ≤ i)%nat → embed_pixels (S fuel) i mi msg d = Some d.
Proof. intros Hd. cbn [embed_pixels]. destruct (Nat.ltb_spec i (length d)); [lia|done]. Qed.

End Loop.

(** The outer loop at the pixel boundary [length pre]: with enough fuel it
    returns the processed prefix followed by the reference on the rest. *)
Lemma embed_pixels_spec msg fuel mi pre post :
  ((length post + 3) / 4 < fuel)%nat →
  embed_pixels fuel (length pre) mi msg (pre ++ post) =
    Some (pre ++ embed_ref post (drop mi (map parseBit msg))).
Proof.
  revert mi pre post. induction fuel as [|fuel IH]; intros mi pre post Hfuel; [lia|].
  cbn [embed_pixels]. rewrite length_app.
  destruct (Nat.ltb_spec (length pre) (length pre + length post)) as [Hpost|Hpost];
    cbn [andb].
  2: { destruct post; [|simpl in Hpost; lia]. by rewrite !app_nil_r. }
  destruct (Nat.ltb_spec mi (length msg)) as [Hmi|Hmi].
  2: { rewrite drop_bits_gone by (rewrite length_map; lia). by rewrite embed_ref_nil. }
  rewrite (embed_channels_spec msg (length pre) 3 0 mi pre post) by lia.
  destruct post as [|r [|g [|b [|a rest]]]]; simpl in Hpost; try lia.
  1-3: destruct fuel as [|fuel]; [simpl in Hfuel; lia|];
    rewrite embed_pixels_stop by (rewrite length_app, length_chan_ref; simpl; lia);
    by rewrite embed_ref_short by (simpl; lia).
  rewrite chan_ref_pixel. cbn [embed_ref].
  set (px := chan_ref 3 [r; g; b] (drop mi (map parseBit msg))).
  replace (pre ++ px ++ a :: rest) with ((pre ++ px ++ [a]) ++ rest)
    by (by rewrite <- !(assoc_L (++))).
  replace (length pre + 4)%nat with (length (pre ++ px ++ [a]))
    by (subst px; rewrite !length_app, length_chan_ref; simpl; lia).
  rewrite IH; [|cbn [length] in Hfuel;
    replace (S (S (S (S (length rest)))) + 3)%nat with (length rest + 3 + 4)%nat in Hfuel by lia;
    rewrite div_add_4 in Hfuel; lia].
  rewrite drop_after_pixel. f_equal. by rewrite <- !(assoc_L (++)).
Qed.

(** (C2) The nested loops of [embedWatermark] terminate within their fuel
    and compute the pixel-by-pixel reference: R, G, B of each pixel take the
    next message bits, alpha is skipped, and the walk stops when the message
    or the buffer ends. *)
Theorem embed_loop_ref msg d :
  embed_loop msg d = Some (embed_ref d (map parseBit msg)).
Proof.
  unfold embed_loop. apply (embed_pixels_spec msg _ 0 [] d).
  apply Nat.Div0.div_lt_upper_bound; lia.
Qed.

(** ** Channel by channel *)

(** What the reference stores at byte [k] holding [v]: byte [k] is channel
    [k mod 4] of pixel [k / 4]; an R, G or B channel is the
    [3 * (k / 4) + k mod 4]-th channel that carries a bit, and takes that bit
    while the message lasts; alpha is kept. *)
Definition embedded_value (bits : list Z) (k : nat) (v : Z) : Z :=
  if (k mod 4 <? 3)%nat then
    match bits !! (3 * (k / 4) + k mod 4)%nat with
    | Some b => lsb_set v b
    | None => v
    end
  else v.

Lemma embedded_value_shift bits k v :
  embedded_value bits (S (S (S (S k)))) v = embedded_value (drop 3 bits) k v.
Proof.
  unfold embedded_value. replace (S (S (S (S k)))) with (k + 4)%nat by lia.
  rewrite div_add_4, mod_add_4, lookup_drop.
  set (q := (k / 4)%nat). set (m := (k mod 4)%nat).
  by replace (3 * (q + 1) + m)%nat with (3 + (3 * q + m))%nat by lia.
Qed.

Lemma embed_ref_lookup d bits k :
  embed_ref d bits !! k = embedded_value bits k <$> d !! k.
Proof.
  revert bits k. induction d as [d Hd|r g b a rest IH] using pixel_ind; intros bits k.
  - destruct d as [|r [|g [|b [|? ?]]]]; simpl in Hd; try lia;
      destruct k as [|[|[|k]]], bits as [|b0 [|b1 [|b2 bits]]]; reflexivity.
  - destruct k as [|[|[|[|k]]]];
      [destruct bits as [|b0 [|b1 [|b2 bits]]]; reflexivity ..|].
    cbn [embed_ref]. rewrite lookup_app_r by (rewrite length_chan_ref; simpl; lia).
    rewrite length_chan_ref. cbn [length]. replace (S (S (S (S k))) - 3)%nat with (S k) by lia.
    cbn [lookup list_lookup]. rewrite IH. destruct (rest !! k); simpl; [|done].
    by rewrite embedded_value_shift.
Qed.

Lemma length_embed_ref d bits : length (embed_ref d bits) = length d.
Proof.
  revert bits. induction d as [d Hd|r g b a rest IH] using pixel_ind; intros bits.
  - rewrite embed_ref_short by done. apply length_chan_ref.
  - cbn [embed_ref]. rewrite length_app, length_chan_ref. simpl. by rewrite IH.
Qed.
#[export] Hint Rewrite length_embed_ref : nb_len.

(** ** The channel write [(v & 0xFE) | bit] on bytes *)

Lemma lsb_set_spec v b : is_byte v → is_bit b → lsb_set v b = v - v mod 2 + b.
Proof.
  intros Hv [-> | ->]; revert v Hv;
    [apply (byte_forall (λ v, lsb_set v 0 = v - v mod 2 + 0)) |
     apply (byte_forall (λ v, lsb_set v 1 = v - v mod 2 + 1))]; vm_compute; reflexivity.
Qed.

Lemma lxor_1_spec v : is_byte v → Z.lxor v 1 = v - v mod 2 + (1 - v mod 2).
Proof.
  apply (byte_forall (λ v, Z.lxor v 1 = v - v mod 2 + (1 - v mod 2))). vm_compute. reflexivity.
Qed.

Lemma lsb_set_lsb v b : is_bit b → Z.land (lsb_set v b) 1 = b.
Proof.
  unfold lsb_set. intros [-> | ->]; rewrite Z.land_lor_distr_l, <- Z.land_assoc;
    simpl; by rewrite Z.land_0_r.
Qed.

(** The written byte is still a byte, and is the old byte or the old byte
    with its low bit flipped. *)
Lemma lsb_set_byte_flip v b :
  is_byte v → is_bit b → is_byte (lsb_set v b) ∧ (lsb_set v b = v ∨ lsb_set v b = Z.lxor v 1).
Proof.
  intros Hv Hb. rewrite lsb_set_spec, lxor_1_spec by done.
  unfold is_byte, is_bit in *. pose proof (Z.mod_pos_bound v 2).
  pose proof (Z.div_mod v 2 ltac:(lia)). lia.
Qed.

Lemma parse_bits_are_bits msg b k : map parseBit msg !! k = Some b → is_bit b.
Proof. rewrite list_lookup_fmap. destruct (msg !! k); intros [= <-]. auto with nb. Qed.

(** ** The callback of [embedWatermark] *)

(** The bits the loop writes: [parseInt] of each digit of
    [textToBinary(text + "::END")]. *)
Definition message_bits (text : list Z) : list Z :=
  map parseBit (textToBinary (text ++ delimiter)).

(** An all-zero canvas of the given size, as a test image. *)
Definition blank_image (w h : nat) : ImageData := mkImageData w h (replicate (4 * w * h) 0).

(** A canvas of positive area. *)
Definition has_area (img : ImageData) : bool := negb ((width img =? 0)%nat || (height img =? 0)%nat).

Lemma has_area_pos img : (0 < width img * height img)%nat → has_area img = true.
Proof.
  intros H. unfold has_area.
  destruct (Nat.eqb_spec (width img) 0), (Nat.eqb_spec (height img) 0); simpl; [nia..|done].
Qed.

Lemma embedWatermark_loaded url text img :
  embedWatermark true url text (Loaded img) =
    if negb (has_area img) then None
    else if (3 * length (data img) <? 4 * length (textToBinary (text ++ delimiter)))%nat
    then Some (Resolved (OriginalUrl url))
    else Some (Resolved (CanvasPng
           (mkImageData (width img) (height img) (embed_ref (data img) (message_bits text))))).
Proof. unfold embedWatermark, has_area. simpl. rewrite embed_loop_ref. by destruct (_ || _). Qed.

(** (C10) The promise settles exactly when it is not stuck on a zero-area
    canvas: without a context or on a load error it rejects, on a loaded
    image of positive area it resolves (the loop never runs out of fuel),
    and on a loaded image of width or height 0 [getImageData] throws inside
    [onload] and it never settles. *)
Theorem embedWatermark_settles has_ctx url text load :
  embedWatermark has_ctx url text load = None ↔
  has_ctx = true ∧ ∃ img, load = Loaded img ∧ (width img = 0 ∨ height img = 0)%nat.
Proof.
  destruct has_ctx; [|naive_solver]. destruct load as [img|]; [|naive_solver].
  rewrite embedWatermark_loaded. unfold has_area.
  destruct (Nat.eqb_spec (width img) 0), (Nat.eqb_spec (height img) 0); simpl;
    [naive_solver..|]. destruct (_ <? _)%nat; naive_solver.
Qed.

(** (C6) The capacity guard: on a canvas of positive area the promise
    resolves with the caller's URL unchanged exactly when the message has
    more bits than three quarters of the buffer's bytes (the R, G, B
    channels). *)
Theorem embedWatermark_skip url text img :
  embedWatermark true url text (Loaded img) = Some (Resolved (OriginalUrl url)) ↔
  (width img ≠ 0 ∧ height img ≠ 0 ∧
   3 * length (data img) < 4 * length (textToBinary (text ++ delimiter)))%nat.
Proof.
  rewrite embedWatermark_loaded. unfold has_area.
  destruct (Nat.eqb_spec (width img) 0), (Nat.eqb_spec (height img) 0); cbn [negb orb]; [naive_solver..|].
  destruct (Nat.ltb_spec (3 * length (data img))
    (4 * length (textToBinary (text ++ delimiter))));
    (split; [intros Hr; try discriminate; split_and!; done || lia | intros (_ & _ & ?); done || lia]).
Qed.

Lemma embedWatermark_skip_witness :
  embedWatermark true "u" [] (Loaded (blank_image 2 2)) = Some (Resolved (OriginalUrl "u")).
Proof. apply (proj2 (embedWatermark_skip "u" [] (blank_image 2 2))). vm_compute. lia. Defined.

Lemma embedWatermark_png_inv url text img img' :
  embedWatermark true url text (Loaded img) = Some (Resolved (CanvasPng img')) →
  img' = mkImageData (width img) (height img) (embed_ref (data img) (message_bits text)).
Proof. rewrite embedWatermark_loaded. destruct (negb (has_area img)); [done|]. by destruct (_ <? _)%nat; intros [=]. Qed.

(** (C9) The resolved canvas has the size of the input, and every byte
    [k] is the reference's value: channel [k mod 4 < 3] of pixel [k / 4]
    takes message bit [3 * (k / 4) + k mod 4] in its low bit while bits
    remain, every other byte is the input byte. *)
Theorem embedWatermark_channels url text img img' :
  embedWatermark true url text (Loaded img) = Some (Resolved (CanvasPng img')) →
  width img' = width img ∧ height img' = height img ∧
  ∀ k, data img' !! k = embedded_value (message_bits text) k <$> data img !! k.
Proof. intros ->%embedWatermark_png_inv. split_and!; [done..|]. apply embed_ref_lookup. Qed.

(** (C7) The alpha channel is never written. *)
Theorem embedWatermark_alpha url text img img' :
  embedWatermark true url text (Loaded img) = Some (Resolved (CanvasPng img')) →
  ∀ k, (k mod 4 = 3)%nat → data img' !! k = data img !! k.
Proof.
  intros ->%embedWatermark_png_inv k Hk. simpl. rewrite embed_ref_lookup.
  destruct (data img !! k); [|done]. simpl. unfold embedded_value. rewrite Hk. done.
Qed.

Lemma embedded_value_flip bits k v :
  is_byte v → (∀ i b, bits !! i = Some b → is_bit b) →
  is_byte (embedded_value bits k v) ∧
  (embedded_value bits k v = v ∨ embedded_value bits k v = Z.lxor v 1).
Proof.
  intros Hv Hbits. unfold embedded_value.
  destruct (_ <? _)%nat; [destruct (bits !! _) as [b|] eqn:Eb|]; [|auto..].
  apply lsb_set_byte_flip; eauto.
Qed.

(** (C8) Every byte of the result is a byte that differs from the input byte
    at most in its lowest bit. *)
Theorem embedWatermark_lsb_only url text img img' :
  embedWatermark true url text (Loaded img) = Some (Resolved (CanvasPng img')) →
  Forall is_byte (data img) →
  ∀ k v v', data img !! k = Some v → data img' !! k = Some v' →
    is_byte v' ∧ (v' = v ∨ v' = Z.lxor v 1) ∧ Z.abs (v' - v) ≤ 1.
Proof.
  intros Hres Hbytes k v v' Hv Hv'.
  pose proof (Forall_lookup_1 _ _ _ _ Hbytes Hv) as Hb.
  destruct (embedWatermark_channels _ _ _ _ Hres) as (_ & _ & Hk).
  rewrite Hk, Hv in Hv'. injection Hv' as <-.
  destruct (embedded_value_flip (message_bits text) k v Hb) as [Hrange Hflip].
  { intros ??. apply parse_bits_are_bits. }
  split_and!; [done|done|]. pose proof (Z.mod_pos_bound v 2).
  destruct Hflip as [-> | ->]; [lia|]. rewrite lxor_1_spec by done. lia.
Qed.

(** ** Concrete runs: the spec's 10x10 all-zero image and the text ["hi"] *)

Definition spec_image : ImageData := blank_image 10 10.
Definition spec_text : list Z := ⟪"hi"⟫.
Definition spec_png : ImageData :=
  mkImageData 10 10 (embed_ref (data spec_image) (message_bits spec_text)).

Lemma spec_run :
  embedWatermark true "u" spec_text (Loaded spec_image) = Some (Resolved (CanvasPng spec_png)).
Proof. vm_compute. reflexivity. Qed.

Lemma embedWatermark_channels_witness :
  width spec_png = width spec_image ∧ height spec_png = height spec_image ∧
  ∀ k, data spec_png !! k = embedded_value (message_bits spec_text) k <$> data spec_image !! k.
Proof. apply (embedWatermark_channels "u"). vm_compute. reflexivity. Defined.

Lemma embedWatermark_alpha_witness : data spec_png !! 3%nat = data spec_image !! 3%nat.
Proof. apply (embedWatermark_alpha "u" spec_text); [vm_compute; reflexivity | reflexivity]. Defined.

Lemma embedWatermark_lsb_only_witness :
  is_byte 1 ∧ (1 = 0 ∨ 1 = Z.lxor 0 1) ∧ Z.abs (1 - 0) ≤ 1.
Proof.
  apply (embedWatermark_lsb_only "u" spec_text spec_image spec_png
           ltac:(vm_compute; reflexivity)
           ltac:(apply Forall_replicate; unfold is_byte; lia) 1%nat 0 1);
    vm_compute; reflexivity.
Defined.

Lemma embedWatermark_settles_witness :
  embedWatermark true "u" spec_text (Loaded (blank_image 0 7)) = None.
Proof. apply embedWatermark_settles. split; [done|]. eexists; split; [reflexivity|left; reflexivity]. Defined.
