(* ===== verification/Extract.v ===== *)
(** * Extract: the watermark reader of the spec (section 4.2)

    The repository has no extractor; the spec describes the counterpart of
    [embedWatermark] and this file models it from the spec: read the low bit
    of the R, G, B channels in buffer order ([rgb_channels]), group the bits
    by eight, most significant first ([bytes_of_bits]), and scan the
    decoded code units until the text read so far ends with ["::END"]
    ([scan]).  The main theorem is the round trip with the embedding of
    [Watermark]; the others show when it fails. *)

From stdpp Require Import list strings.
From Stdlib Require Import ZArith Ascii Lia.
From S2P Require Import Prelude Binary Watermark.

Local Open Scope Z_scope.

(** ** Definitions *)

Inductive ExtractError :=
  | PayloadNotFound
  | InvalidImageBuffer.

(** The R, G, B bytes in buffer order (a trailing partial pixel gives what
    it has). *)
Fixpoint rgb_channels (d : list Z) : list Z :=
  match d with
  | r :: g :: b :: _ :: rest => r :: g :: b :: rgb_channels rest
  | _ => d
  end.

(** Eight bits, most significant first, make one code unit; a trailing
    group of fewer than eight bits is dropped. *)
Fixpoint bytes_of_bits (bs : list Z) : list Z :=
  match bs with
  | b0 :: b1 :: b2 :: b3 :: b4 :: b5 :: b6 :: b7 :: rest =>
      bits_value [b0; b1; b2; b3; b4; b5; b6; b7] :: bytes_of_bits rest
  | _ => []
  end.

(** Accumulate code units until the text ends with the delimiter; return
    the text without it. *)
Fixpoint scan (acc codes : list Z) : option (list Z) :=
  match codes with
  | [] => None
  | c :: cs =>
      let acc' := acc ++ [c] in
      if ends_with delimiter acc' then Some (take (length acc' - length delimiter) acc')
      else scan acc' cs
  end.

Definition extract (img : ImageData) : ExtractError + list Z :=
  if (length (data img) =? 0)%nat || negb (length (data img) =? 4 * width img * height img)%nat
  then inl InvalidImageBuffer
  else
    match scan [] (bytes_of_bits (map (λ v, Z.land v 1) (rgb_channels (data img)))) with
    | Some t => inr t
    | None => inl PayloadNotFound
    end.

(** ** The R, G, B stream of an embedded buffer *)

(** Write bits into the low bits of a stream of values, as far as both go. *)
Fixpoint lsb_write (vs bits : list Z) : list Z :=
  match vs, bits with
  | v :: vs', b :: bits' => lsb_set v b :: lsb_write vs' bits'
  | _, _ => vs
  end.

Lemma lsb_write_nil vs : lsb_write vs [] = vs.
Proof. by destruct vs. Qed.

Lemma rgb_channels_embed_ref d bits :
  rgb_channels (embed_ref d bits) = lsb_write (rgb_channels d) bits.
Proof.
  revert bits. induction d as [d Hd|r g b a rest IH] using pixel_ind; intros bits.
  - destruct d as [|r [|g [|b [|? ?]]]]; simpl in Hd; try lia;
      destruct bits as [|b0 [|b1 [|b2 bits]]]; reflexivity.
  - cbn [embed_ref]. destruct bits as [|b0 [|b1 [|b2 bits]]]; simpl;
      rewrite IH; simpl; rewrite ?lsb_write_nil; done.
Qed.

Lemma length_rgb_channels d n : length d = (4 * n)%nat → length (rgb_channels d) = (3 * n)%nat.
Proof.
  revert n. induction d as [d Hd|r g b a rest IH] using pixel_ind; intros n Hn.
  - destruct d as [|? [|? [|? [|? ?]]]]; simpl in *; lia.
  - destruct n as [|n]; simpl in *; [lia|]. rewrite (IH n); lia.
Qed.

Lemma lsbs_lsb_write vs bits :
  (length bits ≤ length vs)%nat → Forall is_bit bits →
  map (λ v, Z.land v 1) (lsb_write vs bits) = bits ++ map (λ v, Z.land v 1) (drop (length bits) vs).
Proof.
  revert vs. induction bits as [|b bits IH]; intros [|v vs] Hlen Hbits; simpl in *;
    try lia; try done.
  inversion Hbits; subst. rewrite lsb_set_lsb by done. f_equal. apply IH; [lia|done].
Qed.

(** ** Decoding the bits of [textToBinary] *)

Lemma length_8 {A} (l : list A) :
  length l = 8%nat → ∃ x0 x1 x2 x3 x4 x5 x6 x7, l = [x0; x1; x2; x3; x4; x5; x6; x7].
Proof.
  intros H. do 8 (destruct l as [|? l]; [discriminate|]). destruct l; [|discriminate].
  eauto 10.
Qed.

Lemma bytes_of_bits_app8 g rest :
  length g = 8%nat → bytes_of_bits (g ++ rest) = bits_value g :: bytes_of_bits rest.
Proof. intros (? & ? & ? & ? & ? & ? & ? & ? & ->)%length_8. reflexivity. Qed.

Lemma bytes_of_bits_textToBinary text rest :
  Forall is_byte text →
  bytes_of_bits (map parseBit (textToBinary text) ++ rest) = text ++ bytes_of_bits rest.
Proof.
  unfold textToBinary. induction 1 as [|c text Hc _ IH]; [done|].
  destruct (charToBinary_byte c Hc) as [Hlen Hval]. simpl.
  rewrite map_app, <- (assoc_L (++)), bytes_of_bits_app8 by (by rewrite length_map).
  by rewrite Hval, IH.
Qed.

Lemma textToBinary_bits text : Forall is_bit (map parseBit (textToBinary text)).
Proof. apply List.Forall_map, List.Forall_forall. intros. auto with nb. Qed.

(** ** Scanning for the delimiter *)

Lemma delimiter_borderless : borderless delimiter = true.
Proof. reflexivity. Qed.

Lemma delimiter_bytes : Forall is_byte delimiter.
Proof. repeat constructor; unfold is_byte; lia. Qed.

(** Code units that never complete the delimiter are accumulated. *)
Lemma scan_skip acc xs ys :
  (∀ k, (0 < k ≤ length xs)%nat → ends_with delimiter (acc ++ take k xs) = false) →
  scan acc (xs ++ ys) = scan (acc ++ xs) ys.
Proof.
  revert acc. induction xs as [|x xs IH]; intros acc Hno; simpl; [by rewrite app_nil_r|].
  pose proof (Hno 1%nat ltac:(simpl; lia)) as H1. change (take 1 (x :: xs)) with [x] in H1.
  rewrite H1.
  rewrite IH, <- (assoc_L (++)); [done|]. intros k Hk.
  rewrite <- (assoc_L (++)). apply (Hno (S k)). simpl. lia.
Qed.

(** A text without the delimiter, followed by the delimiter, is read back
    whatever follows. *)
Lemma scan_delimited text rest :
  occurs delimiter text = false →
  scan [] (text ++ delimiter ++ rest) = Some text.
Proof.
  intros Hocc.
  replace (text ++ delimiter ++ rest) with ((text ++ take 4 delimiter) ++ ⟪"D"⟫ ++ rest)
    by (by rewrite <- !(assoc_L (++))).
  rewrite scan_skip.
  - rewrite app_nil_l. change (⟪"D"⟫ ++ rest) with (68 :: rest). cbn [scan].
    replace ((text ++ take 4 delimiter) ++ [68]) with (text ++ delimiter)
      by (by rewrite <- (assoc_L (++))).
    assert (Hend : ends_with delimiter (text ++ delimiter) = true)
      by (apply ends_with_spec; eauto).
    rewrite Hend, length_app. f_equal.
    replace (length text + length delimiter - length delimiter)%nat with (length text) by lia.
    apply take_app_length.
  - intros k Hk. rewrite length_app in Hk. rewrite app_nil_l. destruct (decide (k ≤ length text)%nat).
    + rewrite take_app_le by done. apply not_true_iff_false. intros Hend.
      assert (Hin : occurs delimiter (take k text ++ drop k text) = true).
      { apply occurs_app_r. apply occurs_spec. apply ends_with_spec in Hend as [a ->].
        exists a, []. by rewrite app_nil_r. }
      rewrite take_drop in Hin. congruence.
    + rewrite take_app_ge, take_take by lia.
      apply ends_with_take_false; [apply delimiter_borderless|done|simpl; lia].
Qed.

(** ** Round trip *)

Lemma length_message_bits text :
  Forall is_byte text → length (message_bits text) = (8 * (length text + 5))%nat.
Proof.
  intros Ht. unfold message_bits. rewrite length_map, length_textToBinary, length_app.
  - done.
  - apply Forall_app. split; [done|apply delimiter_bytes].
Qed.

(** Embedding a Latin-1 text that fits, and extracting: the extractor scans
    the text, the delimiter and whatever the remaining low bits decode to. *)
Lemma embed_extract_scan url text img :
  length (data img) = (4 * width img * height img)%nat →
  (0 < width img * height img)%nat →
  Forall is_byte text →
  (8 * (length text + 5) ≤ 3 * (width img * height img))%nat →
  ∃ img' rest, embedWatermark true url text (Loaded img) = Some (Resolved (CanvasPng img')) ∧
    extract img' = match scan [] (text ++ delimiter ++ rest) with
                   | Some t => inr t
                   | None => inl PayloadNotFound
                   end.
Proof.
  intros Hwf Harea Hbytes Hcap.
  pose proof (length_message_bits text Hbytes) as Hlen.
  unfold message_bits in Hlen. rewrite length_map in Hlen.
  rewrite embedWatermark_loaded, has_area_pos by done. cbn [negb]. rewrite Hlen.
  destruct (Nat.ltb_spec (3 * length (data img)) (4 * (8 * (length text + 5)))); [lia|].
  eexists _, _. split; [reflexivity|]. unfold extract. cbn [data width height].
  rewrite length_embed_ref, Hwf.
  destruct (Nat.eqb_spec (4 * width img * height img) 0); [lia|].
  rewrite Nat.eqb_refl. cbn [orb negb].
  rewrite rgb_channels_embed_ref. unfold message_bits.
  rewrite lsbs_lsb_write; [|rewrite length_map, (length_rgb_channels _ (width img * height img)); lia
                           |apply textToBinary_bits].
  rewrite bytes_of_bits_textToBinary by (apply Forall_app; split; [done|apply delimiter_bytes]).
  by rewrite <- (assoc_L (++)).
Qed.

(** (C1) Round trip: on a well-formed non-empty canvas, a Latin-1 text that
    does not contain ["::END"] and whose [8 * (length + 5)] bits fit in the
    R, G, B channels is embedded (not skipped), and the extractor reads
    exactly that text back from the resolved image. *)
Theorem extract_embedWatermark url text img :
  length (data img) = (4 * width img * height img)%nat →
  (0 < width img * height img)%nat →
  Forall is_byte text →
  occurs delimiter text = false →
  (8 * (length text + 5) ≤ 3 * (width img * height img))%nat →
  ∃ img', embedWatermark true url text (Loaded img) = Some (Resolved (CanvasPng img')) ∧
          extract img' = inr text.
Proof.
  intros Hwf Harea Hbytes Hocc Hcap.
  destruct (embed_extract_scan url text img Hwf Harea Hbytes Hcap) as (img' & rest & Hemb & Hext).
  exists img'. split; [done|]. by rewrite Hext, scan_delimited.
Qed.

Lemma extract_embedWatermark_witness :
  ∃ img', embedWatermark true "u" spec_text (Loaded spec_image) = Some (Resolved (CanvasPng img')) ∧
          extract img' = inr spec_text.
Proof.
  apply extract_embedWatermark;
    [reflexivity | vm_compute; lia | repeat constructor; unfold is_byte; lia
    | reflexivity | vm_compute; lia].
Defined.

(** The spec's example (section 8, item 8): "hi" in a 10x10 all-zero image
    is read back. *)
Example extract_spec_png : extract spec_png = inr spec_text.
Proof. vm_compute. reflexivity. Qed.

(** ** What the extractor can return *)








(** (C15) A text that contains the delimiter is cut at its first
    occurrence: for every Latin-1 [a] without ["::END"] and every Latin-1
    [b], the text [a ++ "::END" ++ b] that fits is embedded and read back
    as [a] alone. *)
Theorem extract_embedWatermark_inner_delimiter url a b img :
  length (data img) = (4 * width img * height img)%nat →
  (0 < width img * height img)%nat →
  Forall is_byte a → Forall is_byte b →
  occurs delimiter a = false →
  (8 * (length a + length b + 10) ≤ 3 * (width img * height img))%nat →
  ∃ img', embedWatermark true url (a ++ delimiter ++ b) (Loaded img) = Some (Resolved (CanvasPng img')) ∧
          extract img' = inr a.
Proof.
  intros Hwf Harea Ha Hb Hocc Hcap.
  assert (Hbytes : Forall is_byte (a ++ delimiter ++ b)).
  { apply Forall_app. split; [done|]. apply Forall_app. split; [apply delimiter_bytes|done]. }
  destruct (embed_extract_scan url (a ++ delimiter ++ b) img Hwf Harea Hbytes) as (img' & rest & Hemb & Hext).
  { rewrite !length_app. simpl. lia. }
  exists img'. split; [done|]. rewrite Hext, <- !(assoc_L (++)). by rewrite scan_delimited.
Qed.

Lemma extract_embedWatermark_inner_delimiter_witness :
  ∃ img', embedWatermark true "u" (⟪"a"⟫ ++ delimiter ++ ⟪"b"⟫) (Loaded spec_image) =
            Some (Resolved (CanvasPng img')) ∧ extract img' = inr ⟪"a"⟫.
Proof.
  apply extract_embedWatermark_inner_delimiter;
    [reflexivity | vm_compute; lia | repeat constructor; unfold is_byte; lia
    | repeat constructor; unfold is_byte; lia | reflexivity | vm_compute; lia].
Defined.

(** ** Images that carry no watermark *)

Lemma rgb_channels_Forall (P : Z → Prop) d : Forall P d → Forall P (rgb_channels d).
Proof.
  induction d as [d Hd|r g b a rest IH] using pixel_ind; intros HP.
  - destruct d as [|? [|? [|? [|? ?]]]]; simpl in *; [done..|lia].
  - inversion_clear HP as [|? ? ? HP1]. inversion_clear HP1 as [|? ? ? HP2].
    inversion_clear HP2 as [|? ? ? HP3]. inversion_clear HP3. simpl. auto.
Qed.

Lemma bytes_of_bits_zeros bs : Forall (λ b, b = 0) bs → Forall (λ c, c = 0) (bytes_of_bits bs).
Proof.
  remember (length bs) as n eqn:Hn. revert bs Hn.
  induction n as [n IH] using lt_wf_ind. intros bs -> Hz.
  destruct bs as [|b0 [|b1 [|b2 [|b3 [|b4 [|b5 [|b6 [|b7 rest]]]]]]]]; simpl; auto.
  repeat match goal with H : Forall _ (_ :: _) |- _ => inversion_clear H end. subst.
  constructor; [reflexivity|]. apply (IH (length rest)); simpl; auto with lia.
Qed.

Lemma scan_zeros acc cs :
  Forall (λ c, c = 0) acc → Forall (λ c, c = 0) cs → scan acc cs = None.
Proof.
  revert acc. induction cs as [|c cs IH]; intros acc Hacc Hcs; [done|].
  inversion_clear Hcs as [|? ? Hc Hcs']. cbn [scan].
  assert (Hz : Forall (λ c, c = 0) (acc ++ [c])) by (apply Forall_app; auto).
  destruct (ends_with delimiter (acc ++ [c])) eqn:Hend.
  - apply ends_with_spec in Hend as [a Ha]. rewrite Ha in Hz.
    apply Forall_app in Hz as [_ Hd]. inversion Hd. discriminate.
  - by apply IH.
Qed.

(** (C20) The spec's "extraction without prior embedding fails": on a
    well-formed canvas whose bytes all have a clear low bit (for instance
    an all-zero one), the extractor reports [PayloadNotFound]. *)
Theorem extract_unmarked img :
  length (data img) = (4 * width img * height img)%nat →
  (0 < width img * height img)%nat →
  Forall (λ v, Z.land v 1 = 0) (data img) →
  extract img = inl PayloadNotFound.
Proof.
  intros Hwf Harea Heven. unfold extract. rewrite Hwf.
  destruct (Nat.eqb_spec (4 * width img * height img) 0); [lia|].
  rewrite Nat.eqb_refl. cbn [orb negb].
  rewrite scan_zeros; [done|constructor|]. apply bytes_of_bits_zeros.
  apply List.Forall_map. by apply rgb_channels_Forall.
Qed.

Lemma extract_unmarked_witness : extract spec_image = inl PayloadNotFound.
Proof.
  apply extract_unmarked; [reflexivity | vm_compute; lia |].
  apply Forall_replicate. reflexivity.
Defined.
