(* ===== verification/Resize.v ===== *)
(** * Resize: the [img.onload] callback of [compressImage]

    [compressImage] of [src/utils/fileUtils.ts] (lines 11-67) reads a file
    as a data URL, decodes it, computes a canvas size that keeps the aspect
    ratio and does not exceed [maxWidth] / [maxHeight] on the larger side,
    draws the image scaled, re-encodes it (PNG for PNG files, JPEG
    otherwise) and resolves with the base64 part of the data URL.  The
    sizes are JS numbers: the computation of lines 24-38 is modelled on
    exact rationals ([resizeDims]), while JS rounds the quotients of lines
    30 and 35 to the nearest double.  Rounding to nearest is monotone and
    leaves the integers up to 2^53 in place, so the bounds proved here
    ([resizeDims_no_upsize], [fileToBase64_bounded]) hold of the doubles
    too; an exact aspect ratio does not (for 2502 x 1500 under 1920 the
    double quotient is not [1500 * 1920 / 2502]) and is not claimed.  The
    assignment [canvas.width = width] converts to an
    [unsigned long] ([to_unsigned_long]: truncation toward zero, modulo
    [2^32]).  The pixel resampling of [drawImage] and the encoder are not
    modelled: [toDataURL] is an input of the callback.  The file also
    holds the other canvas helpers of the same file: [fileToBase64]
    ([compressImage] at its defaults), [loadImage] and
    [resizeImageToMatch]. *)

From stdpp Require Import list strings.
From Stdlib Require Import ZArith QArith Qround Lqa Ascii Lia.
From S2P Require Import Prelude.

(** ** Definitions *)

(** Lines 24-38: the new width and height. *)
Definition resizeDims (width height maxWidth maxHeight : Q) : Q * Q :=
  if negb (Qle_bool width height) then
    if negb (Qle_bool width maxWidth) then (maxWidth, height * maxWidth / width)
    else (width, height)
  else
    if negb (Qle_bool height maxHeight) then (width * maxHeight / height, maxHeight)
    else (width, height).

(** WebIDL's conversion of a finite JS number to [unsigned long]:
    truncate toward zero, then reduce modulo [2^32]. *)
Definition to_unsigned_long (x : Q) : Z :=
  (if Qle_bool 0 x then Qfloor x else - Qfloor (- x)) mod 2 ^ 32.

(** Lines 24-41: the canvas size of an image of natural size [w] x [h]. *)
Definition canvasDims (w h : nat) (maxWidth maxHeight : Q) : Z * Z :=
  let '(width, height) := resizeDims (inject_Z (Z.of_nat w)) (inject_Z (Z.of_nat h))
                            maxWidth maxHeight in
  (to_unsigned_long width, to_unsigned_long height).

(** [dataUrl.split(',')]. *)
Fixpoint split_comma (s : string) : list string :=
  match s with
  | EmptyString => [EmptyString]
  | String c s' =>
      if ascii_dec c "," then EmptyString :: split_comma s'
      else match split_comma s' with
           | [] => [String c EmptyString]
           | p :: ps => String c p :: ps
           end
  end.

(** Line 52: JPEG unless the file is a PNG. *)
Definition outputMimeType (fileType : string) : string :=
  if String.eqb fileType "image/png" then "image/png" else "image/jpeg".

(** What [reader.onload] / [reader.onerror] deliver. *)
Inductive FileRead :=
  | ReadOk
  | ReadError (err : string).

(** What [img.onload] / [img.onerror] deliver: the natural size. *)
Inductive Decoded :=
  | DecodedImage (w h : nat)
  | DecodeError.

(** The resolved value [{ base64, mimeType }]. *)
Record Compressed := mkCompressed { base64 : string; mimeType : string }.

(** Lines 17-66.  [toDataURL mime quality w h] is what the canvas of size
    [w] x [h] holding the scaled image encodes to. *)
Definition compressImage (fileType : string) (maxWidth maxHeight quality : Q)
    (read : FileRead) (decoded : Decoded) (has_ctx : bool)
    (toDataURL : string → Q → Z → Z → string) : Settled Compressed :=
  match read with
  | ReadError err => Rejected err
  | ReadOk =>
      match decoded with
      | DecodeError => Rejected "Failed to load image"
      | DecodedImage w h =>
          let '(cw, ch) := canvasDims w h maxWidth maxHeight in
          if negb has_ctx then Rejected "Failed to get canvas context"
          else
            let mime := outputMimeType fileType in
            let dataUrl := toDataURL mime quality cw ch in
            match split_comma dataUrl !! 1%nat with
            | Some b64 =>
                if String.eqb b64 "" then Rejected "Failed to compress image"
                else Resolved (mkCompressed b64 mime)
            | None => Rejected "Failed to compress image"
            end
      end
  end.

(** Lines 68-71: [fileToBase64] is [compressImage] with its defaults. *)
Definition fileToBase64 (fileType : string) : FileRead → Decoded → bool →
    (string → Q → Z → Z → string) → Settled Compressed :=
  compressImage fileType 1920 1920 (85 # 100).

(** Lines 84-92: [loadImage] resolves with the loaded image (here its
    natural size) or rejects. *)
Definition loadImage (decoded : Decoded) : Settled (nat * nat) :=
  match decoded with
  | DecodedImage w h => Resolved (w, h)
  | DecodeError => Rejected "Failed to load image from data URL."
  end.

(** Lines 100-120: [resizeImageToMatch].  The canvas takes the target's
    natural size and [toPNG sw sh tw th] is the PNG data URL of the source
    of size [sw] x [sh] drawn scaled onto a [tw] x [th] canvas. *)
Definition resizeImageToMatch (has_ctx : bool) (source : Decoded) (targetW targetH : nat)
    (toPNG : nat → nat → nat → nat → string) : Settled string :=
  if negb has_ctx then Rejected "Could not get canvas context."
  else
    match source with
    | DecodeError => Rejected "Failed to load source image for resizing."
    | DecodedImage sw sh => Resolved (toPNG sw sh targetW targetH)
    end.

(** ** The four branches of [resizeDims] *)

Local Open Scope Q_scope.

Inductive resize_spec (w h mw mh : Q) : Q * Q → Prop :=
  | ResizeWidthBound : h < w → mw < w → resize_spec w h mw mh (mw, h * mw / w)
  | ResizeWidthKeep : h < w → w <= mw → resize_spec w h mw mh (w, h)
  | ResizeHeightBound : w <= h → mh < h → resize_spec w h mw mh (w * mh / h, mh)
  | ResizeHeightKeep : w <= h → h <= mh → resize_spec w h mw mh (w, h).

Lemma Qle_bool_spec x y : BoolSpec (x <= y) (y < x) (Qle_bool x y).
Proof.
  destruct (Qle_bool x y) eqn:E; constructor.
  - by apply Qle_bool_iff.
  - apply Qnot_le_lt. intros H. apply Qle_bool_iff in H. congruence.
Qed.

Lemma resizeDims_spec w h mw mh : resize_spec w h mw mh (resizeDims w h mw mh).
Proof.
  unfold resizeDims.
  destruct (Qle_bool_spec w h), (Qle_bool_spec w mw), (Qle_bool_spec h mh); simpl;
    by constructor.
Qed.

(** Scaling by [m / d] with [m ≤ d] does not increase a non-negative value,
    and scaling [a ≤ d] by [m / d] stays below a non-negative [m]. *)
Lemma Qscale_le_self x m d : 0 <= x → 0 < d → m <= d → x * m / d <= x.
Proof.
  intros Hx Hd Hm. apply Qle_shift_div_r; [done|].
  rewrite !(Qmult_comm x). by apply Qmult_le_compat_r.
Qed.

Lemma Qscale_le_bound a m d : 0 <= m → 0 < d → a <= d → a * m / d <= m.
Proof.
  intros Hm Hd Ha. apply Qle_shift_div_r; [done|].
  rewrite (Qmult_comm m). by apply Qmult_le_compat_r.
Qed.

Lemma Qscale_nonneg x m d : 0 <= x → 0 <= m → 0 < d → 0 <= x * m / d.
Proof.
  intros Hx Hm Hd. apply Qle_shift_div_l; [done|].
  rewrite Qmult_0_l. by apply Qmult_le_0_compat.
Qed.

Ltac resize_cases w h mw mh :=
  destruct (resizeDims_spec w h mw mh) as [Hwh Hm|Hwh Hm|Hwh Hm|Hwh Hm]; simpl.

(** ** Properties of the size computation

    The sizes are non-negative and so are the bounds (the defaults are
    1920), so no division by zero occurs: in the first branch
    [width > height ≥ 0], in the second [height > maxHeight ≥ 0]. *)

Section Dims.
Context (w h mw mh : Q) (Hw : 0 <= w) (Hh : 0 <= h) (Hmw : 0 <= mw) (Hmh : 0 <= mh).

(** (C21) The resize never enlarges either side. *)
Theorem resizeDims_no_upsize :
  fst (resizeDims w h mw mh) <= w ∧ snd (resizeDims w h mw mh) <= h.
Proof.
  resize_cases w h mw mh; split; try apply Qle_refl.
  - by apply Qlt_le_weak.
  - apply Qscale_le_self; [done|lra|lra].
  - apply Qscale_le_self; [done|lra|lra].
  - by apply Qlt_le_weak.
Qed.

End Dims.

(** With a square bound (the defaults 1920 x 1920) both sides of the
    result are within the bound. *)
Lemma resizeDims_square_bound w h m :
  0 <= w → 0 <= h → 0 <= m →
  fst (resizeDims w h m m) <= m ∧ snd (resizeDims w h m m) <= m.
Proof.
  intros Hw Hh Hm0. resize_cases w h m m; split; try lra.
  - apply Qscale_le_bound; [done|lra|lra].
  - apply Qscale_le_bound; [done|lra|done].
Qed.

Lemma resizeDims_nonneg w h mw mh :
  0 <= w → 0 <= h → 0 <= mw → 0 <= mh →
  0 <= fst (resizeDims w h mw mh) ∧ 0 <= snd (resizeDims w h mw mh).
Proof. intros. resize_cases w h mw mh; split; try done; apply Qscale_nonneg; try done; lra. Qed.

(** A number in [[0, m]] with [m < 2^32] becomes an [unsigned long] in [[0, m]]. *)
Lemma to_unsigned_long_le x m :
  0 <= x → x <= inject_Z m → (m < 2 ^ 32)%Z → (0 ≤ to_unsigned_long x ≤ m)%Z.
Proof.
  intros H0 Hm Hb. unfold to_unsigned_long. rewrite (proj2 (Qle_bool_iff 0 x) H0).
  assert (0 ≤ Qfloor x)%Z by (apply (Qfloor_resp_le 0 x) in H0; done).
  assert (Qfloor x ≤ m)%Z by (rewrite Zle_Qle; apply (Qle_trans _ x); [apply Qfloor_le|done]).
  rewrite Z.mod_small; lia.
Qed.

Lemma canvasDims_square w h m :
  (0 ≤ m < 2 ^ 32)%Z →
  (0 ≤ fst (canvasDims w h (inject_Z m) (inject_Z m)) ≤ m)%Z ∧
  (0 ≤ snd (canvasDims w h (inject_Z m) (inject_Z m)) ≤ m)%Z.
Proof.
  intros Hm. unfold canvasDims.
  assert (Hz : ∀ n : nat, 0 <= inject_Z (Z.of_nat n)) by (intros n; change 0 with (inject_Z 0); rewrite <- Zle_Qle; lia).
  assert (0 <= inject_Z m) by (change 0 with (inject_Z 0); rewrite <- Zle_Qle; lia).
  destruct (resizeDims_square_bound (inject_Z (Z.of_nat w)) (inject_Z (Z.of_nat h)) (inject_Z m)) as [H1 H2];
    try done.
  destruct (resizeDims_nonneg (inject_Z (Z.of_nat w)) (inject_Z (Z.of_nat h)) (inject_Z m) (inject_Z m))
    as [H3 H4]; try done.
  destruct (resizeDims _ _ _ _) as [cw ch]. simpl in *. split; apply to_unsigned_long_le; lia || done.
Qed.

(** An image already within both bounds keeps its size. *)
Theorem resizeDims_keep w h mw mh :
  w <= mw → h <= mh → resizeDims w h mw mh = (w, h).
Proof. intros Hw Hh. resize_cases w h mw mh; done || lra. Qed.

(** The spec's two examples (section 8, items 6 and 7). *)
Theorem canvasDims_spec_examples :
  canvasDims 3000 2000 1920 1920 = (1920%Z, 1280%Z) ∧
  canvasDims 800 600 1920 1920 = (800%Z, 600%Z).
Proof. split; vm_compute; reflexivity. Qed.

(** Only the larger side is checked: with a bound that is not square
    the other side can exceed its own bound.  A 1500 x 1600 image with
    bound 1000 x 1920 keeps its width 1500; a 2000 x 1000 image with bound
    1920 x 500 gets height 960. *)
Theorem canvasDims_nonsquare_exceeds :
  canvasDims 1500 1600 1000 1920 = (1500%Z, 1600%Z) ∧
  canvasDims 2000 1000 1920 500 = (1920%Z, 960%Z).
Proof. split; vm_compute; reflexivity. Qed.

(** The canvas truncates the fractional side, so the encoded image
    keeps the aspect ratio only up to one pixel: 3001 x 2000 becomes
    1920 x 1279, and [1920 * 2000 <> 1279 * 3001]. *)
Theorem canvasDims_truncates :
  canvasDims 3001 2000 1920 1920 = (1920%Z, 1279%Z) ∧ (1920 * 2000 ≠ 1279 * 3001)%Z.
Proof. split; [vm_compute; reflexivity | lia]. Qed.

Lemma resizeDims_no_upsize_witness :
  fst (resizeDims 3000 2000 1920 1920) <= 3000 ∧ snd (resizeDims 3000 2000 1920 1920) <= 2000.
Proof. apply resizeDims_no_upsize; vm_compute; discriminate. Defined.


Lemma resizeDims_keep_witness : resizeDims 800 600 1920 1920 = (800, 600).
Proof. apply resizeDims_keep; vm_compute; discriminate. Defined.

(** ** The promise of [compressImage] *)

Fixpoint comma_free (s : string) : bool :=
  match s with
  | EmptyString => true
  | String c s' => if ascii_dec c "," then false else comma_free s'
  end.

Lemma split_comma_free s : comma_free s = true → split_comma s = [s].
Proof.
  induction s as [|c s IH]; simpl; [done|].
  destruct (ascii_dec c ","); [done|]. intros H. by rewrite IH.
Qed.

Lemma split_comma_app s1 s2 :
  comma_free s1 = true → split_comma (String.append s1 (String "," s2)) = s1 :: split_comma s2.
Proof.
  induction s1 as [|c s1 IH]; simpl; [done|].
  destruct (ascii_dec c ","); [done|]. intros H. by rewrite IH.
Qed.

(** What a resolved [compressImage] tells about its inputs. *)
Lemma compressImage_resolved_inv fileType mw mh quality read decoded has_ctx toDataURL c :
  compressImage fileType mw mh quality read decoded has_ctx toDataURL = Resolved c →
  read = ReadOk ∧ has_ctx = true ∧ mimeType c = outputMimeType fileType ∧ base64 c ≠ "" ∧
  ∃ w h, decoded = DecodedImage w h ∧
    split_comma (toDataURL (outputMimeType fileType) quality
                   (fst (canvasDims w h mw mh)) (snd (canvasDims w h mw mh))) !! 1%nat
      = Some (base64 c).
Proof.
  unfold compressImage. destruct read; [|done]. destruct decoded as [w h|]; [|done].
  destruct (canvasDims w h mw mh) as [cw ch] eqn:Ecd. destruct has_ctx; [|done]. simpl.
  destruct (split_comma _ !! 1%nat) as [b|] eqn:E; [|done].
  destruct (String.eqb_spec b ""); [done|]. intros [= <-]. simpl.
  split_and!; try done. exists w, h. by rewrite Ecd.
Qed.

(** (C24) The promise resolves exactly when the file was read, the image
    decoded, a 2D context obtained, and the canvas's data URL has a
    non-empty second comma-separated field; it resolves with that field,
    and with [image/png] for a PNG file and [image/jpeg] for any other,
    which is also the type the canvas was asked to encode. *)
Theorem compressImage_resolved fileType mw mh quality read decoded has_ctx toDataURL c :
  compressImage fileType mw mh quality read decoded has_ctx toDataURL = Resolved c ↔
  read = ReadOk ∧ has_ctx = true ∧
  mimeType c = (if String.eqb fileType "image/png" then "image/png" else "image/jpeg") ∧
  base64 c ≠ "" ∧
  ∃ w h, decoded = DecodedImage w h ∧
    split_comma (toDataURL (mimeType c) quality
                   (fst (canvasDims w h mw mh)) (snd (canvasDims w h mw mh))) !! 1%nat
      = Some (base64 c).
Proof.
  change (if String.eqb fileType "image/png" then "image/png" else "image/jpeg")
    with (outputMimeType fileType).
  split.
  - intros (Hr & Hc & Hm & Hb & w & h & Hd & Hs)%compressImage_resolved_inv.
    rewrite Hm. split_and!; eauto.
  - intros (-> & -> & Hmime & Hb & w & h & -> & Hsplit). rewrite Hmime in Hsplit.
    unfold compressImage. destruct (canvasDims w h mw mh) as [cw ch]. simpl in *. rewrite Hsplit.
    destruct (String.eqb_spec (base64 c) ""); [done|]. rewrite <- Hmime. by destruct c.
Qed.

(** A data URL ["data:<mime>;base64,<payload>"] with a comma-free payload
    gives back the payload. *)
Lemma compressImage_payload fileType mw mh quality w h toDataURL header payload :
  comma_free header = true → comma_free payload = true → payload ≠ "" →
  toDataURL (outputMimeType fileType) quality
    (fst (canvasDims w h mw mh)) (snd (canvasDims w h mw mh))
    = String.append header (String "," payload) →
  compressImage fileType mw mh quality ReadOk (DecodedImage w h) true toDataURL
    = Resolved (mkCompressed payload (outputMimeType fileType)).
Proof.
  intros Hh Hp Hne Hurl. unfold compressImage.
  destruct (canvasDims w h mw mh) as [cw ch]. simpl in *.
  rewrite Hurl, split_comma_app, split_comma_free by done. simpl.
  by destruct (String.eqb_spec payload "").
Qed.

Lemma compressImage_resolved_witness :
  compressImage "image/png" 1920 1920 (85 # 100) ReadOk (DecodedImage 3000 2000) true
    (λ mime _ w h, "data:image/png;base64,iVBOR") =
    Resolved (mkCompressed "iVBOR" "image/png").
Proof.
  apply (compressImage_resolved "image/png" 1920 1920 (85 # 100) ReadOk (DecodedImage 3000 2000) true).
  split_and!; try done. by exists 3000%nat, 2000%nat.
Defined.

(** (C11) [fileToBase64] never encodes a canvas larger than its default
    bound: when it resolves, its payload is the second field of the data URL
    of a canvas whose width and height both lie in [[0, 1920]], whatever the
    natural size of the image. *)
Theorem fileToBase64_bounded fileType read decoded has_ctx toDataURL c :
  fileToBase64 fileType read decoded has_ctx toDataURL = Resolved c →
  ∃ cw ch, (0 ≤ cw ≤ 1920)%Z ∧ (0 ≤ ch ≤ 1920)%Z ∧
    split_comma (toDataURL (outputMimeType fileType) (85 # 100) cw ch) !! 1%nat = Some (base64 c).
Proof.
  intros (_ & _ & _ & _ & w & h & _ & Hs)%compressImage_resolved_inv.
  destruct (canvasDims_square w h 1920) as [H1 H2]; [lia|].
  by exists (fst (canvasDims w h 1920 1920)), (snd (canvasDims w h 1920 1920)).
Qed.

Lemma fileToBase64_bounded_witness :
  ∃ cw ch, (0 ≤ cw ≤ 1920)%Z ∧ (0 ≤ ch ≤ 1920)%Z ∧
    split_comma ((λ _ _ _ _, "data:image/jpeg;base64,/9j/") "image/jpeg" (85 # 100) cw ch) !! 1%nat = Some "/9j/".
Proof.
  apply (fileToBase64_bounded "image/jpeg" ReadOk (DecodedImage 4000 3000) true
           (λ _ _ _ _, "data:image/jpeg;base64,/9j/") (mkCompressed "/9j/" "image/jpeg")).
  vm_compute. reflexivity.
Defined.
