(* ===== verification/Http.v ===== *)
(** * Http: what the API handlers and the router share

    JS values the handlers of [src/api/gemini.ts] and [src/api/video.ts]
    and the router [src/server.js] handle alike: a thrown value
    ([JsError]: an [Error] with its message, or anything else), the
    truthiness of an optional string, [String.prototype.includes],
    [Array.prototype.join], the fields of [JSON.parse(message).error] both
    handlers read ([ParsedApiError]) and a response, its status and the
    JSON object it carries ([HttpResponse], generic in that object). *)

From stdpp Require Import list strings.
From Stdlib Require Import ZArith Ascii Lia.
From S2P Require Import Prelude.

Local Open Scope string_scope.

(** A thrown value: an [Error] with its message, or anything else. *)
Inductive JsError :=
  | ErrorObj (message : string)
  | NonError.

(** [new Response(JSON.stringify(b), { status })]. *)
Record HttpResponse (B : Type) := mkResponse { status : Z; body : B }.
Arguments mkResponse {B} status body.
Arguments status {B} _.
Arguments body {B} _.

(** What [JSON.parse(errorMessage)] gives, through the fields the handlers
    read ([src/api/gemini.ts] lines 129-137, [src/api/video.ts] lines
    77-79): [parsedError.error] with its [message], [status] and [code]. *)
Record ParsedApiError := mkParsedApiError {
  pe_message : option string;
  pe_status : option string;
  pe_code : option Z
}.

(** ** JS helpers *)

(** JS truthiness of an optional string: present and non-empty. *)
Definition truthy (s : option string) : bool :=
  match s with Some x => negb (String.eqb x "") | None => false end.

(** [s.includes(sub)]. *)
Definition includes (s sub : string) : bool :=
  occurs (String.list_ascii_of_string sub) (String.list_ascii_of_string s).

(** [xs.join(sep)]. *)
Fixpoint join (sep : string) (xs : list string) : string :=
  match xs with
  | [] => ""
  | [x] => x
  | x :: xs' => x +:+ sep +:+ join sep xs'
  end.

(** The double-quote character and the newline, which string literals here
    do not spell. *)
Definition dq : string := String (Ascii.ascii_of_nat 34) EmptyString.
Definition nl : string := String (Ascii.ascii_of_nat 10) EmptyString.

(** ** Code that throws

    The body of a [try] block is a computation in the exception monad
    [JsError + _]: [await p] of a rejecting promise and [throw e] give
    [inl e], which skips the rest of the block; stdpp's [x ← m; k] is the
    sequencing. *)
#[export] Instance js_ret : MRet (sum JsError) := λ _ a, inr a.
#[export] Instance js_bind : MBind (sum JsError) :=
  λ _ _ k m, match m with inl e => inl e | inr a => k a end.

(** [catch (error) { if (error instanceof Error) throw new Error(error.message);
    throw new Error(fallback) }]: every failure leaves as an [Error]. *)
Definition rethrow {A} (fallback : string) (m : JsError + A) : JsError + A :=
  match m with
  | inl NonError => inl (ErrorObj fallback)
  | _ => m
  end.
