(* ===== verification/Gemini.v ===== *)
(** * Gemini: the image-edit handler of [src/api/gemini.ts]

    [handler(req)] (lines 8-151) checks the method and the API key, parses
    the JSON body, builds the request parts (the image, the optional mask
    with a rewritten prompt, the optional second image, then the prompt),
    calls [ai.models.generateContent], folds the response parts into
    [{ imageUrl, text }] and answers 200 with it, or 400 with a message when
    no image came back; any exception is mapped to a status and a message
    (451 for the region block, 429 for [RESOURCE_EXHAUSTED], otherwise 500).

    The remote call and the body parser are inputs: [body] is what
    [await req.json()] returns or throws, [sdk] is what [generateContent]
    returns or throws for the parts it is given, and [json_parse] (a
    Section variable) is [JSON.parse] on an error message, seen through the
    fields the handler reads.  Responses are modelled by their status and
    the JSON object they carry. *)

From stdpp Require Import list strings.
From Stdlib Require Import ZArith Ascii Lia.
From S2P Require Import Prelude Http.

Local Open Scope string_scope.

(** ** Data *)

(** [{ inlineData: { data, mimeType } }] or [{ text }]. *)
Inductive Part :=
  | InlineData (data mimeType : string)
  | TextPart (text : string).

(** The fields of the parsed body (lines 27-28); an absent [maskBase64] or
    [secondaryImage] is [None]. *)
Record Body := mkBody {
  base64ImageData : string;
  mimeType : string;
  prompt : string;
  maskBase64 : option string;
  secondaryImage : option (string * string)
}.

(** A part of the model's answer: [part.text], [part.inlineData]. *)
Record RespPart := mkRespPart {
  rp_text : option string;
  rp_inlineData : option (string * string)   (** (mimeType, data) *)
}.

Record SafetyRating := mkSafetyRating { sr_category : string; sr_blocked : bool }.

(** [response.candidates?.[0]]: its [content?.parts], [finishReason] and
    [safetyRatings], each possibly absent. *)
Record Candidate := mkCandidate {
  c_parts : option (list RespPart);
  c_finishReason : option string;
  c_safetyRatings : option (list SafetyRating)
}.

Record GenResponse := mkGenResponse { candidates : option (list Candidate) }.

(** The JSON object a response carries. *)
Inductive JsonBody :=
  | ErrorBody (error : string)
  | ResultBody (imageUrl text : option string).

(** ** Operations *)

(** Line 50: the prompt sent when a mask is present. *)
Definition masked_prompt (p : string) : string :=
  "Apply the following instruction only to the masked area of the image: " +:+ dq +:+ p +:+ dq
  +:+ ". Preserve the unmasked area.".

(** Lines 33-62: the parts of the request, the text part last. *)
Definition build_parts (b : Body) : list Part :=
  let parts := [InlineData (base64ImageData b) (mimeType b)] in
  let '(parts, fullPrompt) :=
    match maskBase64 b with
    | Some m => if String.eqb m "" then (parts, prompt b)
                else (app parts [InlineData m "image/png"], masked_prompt (prompt b))
    | None => (parts, prompt b)
    end in
  let parts :=
    match secondaryImage b with
    | Some (d, mt) => app parts [InlineData d mt]
    | None => parts
    end in
  app parts [TextPart fullPrompt].

(** Line 73: [response.candidates?.[0]?.content?.parts]. *)
Definition first_candidate (r : GenResponse) : option Candidate :=
  match candidates r with Some (c :: _) => Some c | _ => None end.

Definition response_parts (r : GenResponse) : option (list RespPart) :=
  match first_candidate r with Some c => c_parts c | None => None end.

(** The body of the [for] loop of lines 76-82 on [result = { imageUrl, text }]. *)
Definition add_part (acc : option string * option string) (p : RespPart)
    : option string * option string :=
  let '(imageUrl, text) := acc in
  match rp_text p with
  | Some t =>
      if String.eqb t "" then
        match rp_inlineData p with
        | Some (mt, d) => (Some ("data:" +:+ mt +:+ ";base64," +:+ d), text)
        | None => (imageUrl, text)
        end
      else (imageUrl, Some ((if truthy text then default "" text +:+ nl else "") +:+ t))
  | None =>
      match rp_inlineData p with
      | Some (mt, d) => (Some ("data:" +:+ mt +:+ ";base64," +:+ d), text)
      | None => (imageUrl, text)
      end
  end.

(** Lines 72-83: [result] after the loop ([null] is [None]). *)
Definition collect_result (r : GenResponse) : option string * option string :=
  match response_parts r with
  | Some ps => fold_left add_part ps (None, None)
  | None => (None, None)
  end.

(** Lines 86-98: the message when no image came back. *)
Definition no_image_message (r : GenResponse) (text : option string) : string :=
  if truthy text then "The model responded: " +:+ dq +:+ default "" text +:+ dq
  else
    let finishReason := first_candidate r ≫= c_finishReason in
    let blockedCategories :=
      (λ rs, join ", " (map sr_category (filter (λ x, sr_blocked x = true) rs)))
        <$> (first_candidate r ≫= c_safetyRatings) in
    if bool_decide (finishReason = Some "SAFETY") then
      "The request was blocked for safety reasons. Categories: "
      +:+ (if truthy blockedCategories then default "" blockedCategories else "Unknown")
      +:+ ". Please modify your prompt or image."
    else "The model did not return an image. It might have refused the request. Please try a different image or prompt.".

(** Lines 121-125. *)
Definition location_message : string :=
  "⚠️ Gemini API is not available in your region. Please try one of the following solutions:" +:+ nl +:+ nl
  +:+ "1. Use a VPN to connect from a supported region (US, EU, etc.)" +:+ nl
  +:+ "2. Deploy this application to a cloud service in a supported region (Vercel, Cloudflare, etc.)" +:+ nl
  +:+ "3. Use a proxy server in a supported location" +:+ nl +:+ nl
  +:+ "Supported regions: https://ai.google.dev/gemini-api/docs/available-regions".

Section Handler.
(** [JSON.parse(message).error], when the parse succeeds and yields an
    object with an [error] object; [None] when it throws or there is none. *)
Variable json_parse : string → option ParsedApiError.

(** The [catch] block, lines 110-150. *)
Definition handle_error (e : JsError) : HttpResponse JsonBody :=
  match e with
  | NonError => mkResponse 500 (ErrorBody "An unknown error occurred while communicating with the API.")
  | ErrorObj msg =>
      if includes msg "User location is not supported" || includes msg "location is not supported"
      then mkResponse 451 (ErrorBody location_message)
      else
        match json_parse msg with
        | Some pe =>
            if truthy (pe_message pe) then
              if bool_decide (pe_status pe = Some "RESOURCE_EXHAUSTED") then
                mkResponse 429 (ErrorBody "You've likely exceeded the request limit. Please wait a moment before trying again.")
              else if bool_decide (pe_code pe = Some 500%Z) || bool_decide (pe_status pe = Some "UNKNOWN") then
                mkResponse 500 (ErrorBody "An unexpected server error occurred. This might be a temporary issue. Please try again in a few moments.")
              else mkResponse 500 (ErrorBody (default "" (pe_message pe)))
            else mkResponse 500 (ErrorBody msg)
        | None => mkResponse 500 (ErrorBody msg)
        end
  end.

(** [handler(req)]: [method] is [req.method], [apiKey] is
    [process.env.GEMINI_API_KEY], [body] what [await req.json()] returns or
    throws, [sdk] what [generateContent] returns or throws. *)
Definition handler (method : string) (apiKey : option string) (body : JsError + Body)
    (sdk : list Part → JsError + GenResponse) : HttpResponse JsonBody :=
  if negb (String.eqb method "POST") then mkResponse 405 (ErrorBody "Method not allowed")
  else if negb (truthy apiKey) then mkResponse 500 (ErrorBody "API key not configured")
  else
    match body with
    | inl e => handle_error e
    | inr b =>
        match sdk (build_parts b) with
        | inl e => handle_error e
        | inr r =>
            let '(imageUrl, text) := collect_result r in
            if negb (truthy imageUrl) then mkResponse 400 (ErrorBody (no_image_message r text))
            else mkResponse 200 (ResultBody imageUrl text)
        end
    end.
End Handler.

(** ** The fold over the response parts *)

(** What a part contributes: its text when truthy, otherwise the data URL
    of its inline image. *)
Definition part_text (p : RespPart) : option string :=
  if truthy (rp_text p) then rp_text p else None.

Definition part_image (p : RespPart) : option string :=
  if truthy (rp_text p) then None
  else (λ '(mt, d), "data:" +:+ mt +:+ ";base64," +:+ d) <$> rp_inlineData p.

Definition opt_list (o : option string) : list string :=
  match o with Some x => [x] | None => [] end.

Lemma join_snoc sep ts t : ts ≠ [] → join sep (app ts [t]) = join sep ts +:+ sep +:+ t.
Proof.
  induction ts as [|x [|y ts] IH]; intros Hne; [done|done|].
  change (join sep (app (x :: y :: ts) [t])) with (x +:+ sep +:+ join sep (app (y :: ts) [t])).
  rewrite IH by done. cbn [join]. by rewrite !string_app_assoc.
Qed.

Lemma join_cons2 sep y x ts : join sep (y :: x :: ts) = join sep ((y +:+ sep +:+ x) :: ts).
Proof. destruct ts; cbn [join]; by rewrite ?string_app_assoc. Qed.

Lemma string_app_nonempty (y x : string) : x ≠ "" → y +:+ x ≠ "".
Proof. destruct y; [done|]. rewrite string_app_cons. discriminate. Qed.

Lemma truthy_spec (t : option string) : t ≠ Some "" → truthy t = bool_decide (is_Some t).
Proof.
  destruct t as [x|]; [|done]. intros Hx. simpl.
  destruct (String.eqb_spec x ""); [congruence|done].
Qed.

(** [result.imageUrl] after the loop: the last image, else the initial value. *)
Definition last_or (i : option string) (l : list string) : option string :=
  match last l with Some u => Some u | None => i end.

(** [result.text] after the loop: the texts joined by newlines. *)
Definition join_texts (t : option string) (ts : list string) : option string :=
  match app (opt_list t) ts with [] => None | l => Some (join nl l) end.

(** The new text of line 78 after a truthy part text [x]. *)
Definition text_step (t : option string) (x : string) : string :=
  (if truthy t then default "" t +:+ nl else "") +:+ x.

Lemma add_part_step i t p :
  add_part (i, t) p =
    (match part_image p with Some u => Some u | None => i end,
     match part_text p with Some x => Some (text_step t x) | None => t end).
Proof.
  destruct p as [[x|] [[mt d]|]]; unfold add_part, part_image, part_text, truthy; simpl;
    try destruct (String.eqb x ""); reflexivity.
Qed.

Lemma part_text_nonempty p x : part_text p = Some x → x ≠ "".
Proof.
  unfold part_text, truthy. destruct (rp_text p) as [y|]; [|done].
  destruct (String.eqb_spec y ""); simpl; [done|]. by intros [= <-].
Qed.

Lemma join_texts_cons t x ts :
  t ≠ Some "" → join_texts t (x :: ts) = join_texts (Some (text_step t x)) ts.
Proof.
  intros Ht. unfold join_texts, text_step. destruct t as [y|]; [|done].
  assert (Hy : truthy (Some y) = true).
  { unfold truthy. destruct (String.eqb_spec y ""); [congruence|done]. }
  rewrite Hy. change (app (opt_list (Some y)) (x :: ts)) with (y :: x :: ts).
  change (app (opt_list (Some ((default "" (Some y) +:+ nl) +:+ x))) ts)
    with (((y +:+ nl) +:+ x) :: ts).
  cbn -[join String.append]. by rewrite join_cons2, string_app_assoc.
Qed.

Lemma last_or_cons i u l : last_or i (u :: l) = last_or (Some u) l.
Proof. unfold last_or. rewrite last_cons. by destruct (last l). Qed.

Lemma fold_add_part ps i t :
  t ≠ Some "" →
  fold_left add_part ps (i, t) = (last_or i (omap part_image ps), join_texts t (omap part_text ps)).
Proof.
  revert i t. induction ps as [|p ps IH]; intros i t Ht.
  { simpl. unfold join_texts. by destruct t. }
  cbn [fold_left]. rewrite add_part_step, IH.
  - cbn [omap list_omap]. f_equal.
    + destruct (part_image p); [by rewrite last_or_cons|done].
    + destruct (part_text p) as [x|] eqn:Ex; [|done]. by rewrite join_texts_cons.
  - destruct (part_text p) as [x|] eqn:Ex; [|done].
    intros [= Hx]. unfold text_step in Hx. revert Hx.
    by apply string_app_nonempty, (part_text_nonempty p).
Qed.

(** (C4) The loop of lines 76-82 computes: [imageUrl] is the data URL of
    the last part that has no truthy text and has inline data, [text] the
    truthy texts joined by newlines ([null] when there is none). *)
Theorem collect_result_spec r :
  collect_result r =
    (last (omap part_image (default [] (response_parts r))),
     match omap part_text (default [] (response_parts r)) with
     | [] => None
     | ts => Some (join nl ts)
     end).
Proof.
  unfold collect_result. destruct (response_parts r) as [ps|]; [|done]. simpl.
  rewrite fold_add_part by done. unfold last_or, join_texts. simpl.
  by destruct (last (omap part_image ps)).
Qed.

(** ** The request parts *)


(** ** The [catch] block *)

(** The first test of line 119 is subsumed by the second. *)
Lemma includes_location msg :
  includes msg "User location is not supported" || includes msg "location is not supported"
  = includes msg "location is not supported".
Proof.
  destruct (includes msg "location is not supported") eqn:E; [by rewrite orb_true_r|].
  rewrite orb_false_r. apply not_true_iff_false. intros H. unfold includes in H.
  change (String.list_ascii_of_string "User location is not supported") with
    (app (String.list_ascii_of_string "User ")
      (app (String.list_ascii_of_string "location is not supported") [])) in H.
  apply occurs_infix in H. unfold includes in E. congruence.
Qed.

Section Errors.
Variable json_parse : string → option ParsedApiError.

Lemma handle_error_status e :
  status (handle_error json_parse e) = 451%Z ∨ status (handle_error json_parse e) = 429%Z ∨
  status (handle_error json_parse e) = 500%Z.
Proof.
  destruct e as [msg|]; simpl; [|auto].
  destruct (_ || _); [auto|]. destruct (json_parse msg) as [pe|]; [|auto].
  destruct (truthy (pe_message pe)); [|auto].
  destruct (bool_decide _); [auto|]. destruct (_ || _); auto.
Qed.

(** (C5) The exception mapping: 451 exactly for an [Error] whose message
    mentions "location is not supported"; 429 exactly for an [Error] whose
    message parses to an API error with a message and status
    [RESOURCE_EXHAUSTED]; every other exception gives 500. *)
Theorem handle_error_codes e :
  (status (handle_error json_parse e) = 451%Z ↔
     ∃ msg, e = ErrorObj msg ∧ includes msg "location is not supported" = true) ∧
  (status (handle_error json_parse e) = 429%Z ↔
     ∃ msg pe, e = ErrorObj msg ∧ includes msg "location is not supported" = false ∧
       json_parse msg = Some pe ∧ truthy (pe_message pe) = true ∧
       pe_status pe = Some "RESOURCE_EXHAUSTED") ∧
  (status (handle_error json_parse e) ≠ 451%Z → status (handle_error json_parse e) ≠ 429%Z →
     status (handle_error json_parse e) = 500%Z).
Proof.
  split_and!.
  - destruct e as [msg|]; simpl; [|split; [done|by intros (? & ? & _)]].
    rewrite includes_location. destruct (includes msg _) eqn:E; [split; eauto|].
    split; [|by intros (? & [= <-] & ?); congruence].
    destruct (json_parse msg) as [pe|]; [|done]. destruct (truthy _); [|done].
    destruct (bool_decide _); [done|]. by destruct (_ || _).
  - destruct e as [msg|]; simpl; [|split; [done|by intros (? & ? & ? & _)]].
    rewrite includes_location. destruct (includes msg _) eqn:E.
    { split; [done|]. by intros (? & ? & [= <-] & ? & _); congruence. }
    destruct (json_parse msg) as [pe|] eqn:Ep;
      [|split; [done|by intros (? & ? & [= <-] & _ & ? & _); congruence]].
    destruct (truthy (pe_message pe)) eqn:Et;
      [|split; [done|intros (? & ? & [= <-] & _ & Hp & Ht & _);
                      rewrite Ep in Hp; injection Hp as <-; congruence]].
    case_bool_decide as Hs; [split; [eauto 10|done]|].
    split; [by destruct (_ || _)|]. intros (? & ? & [= <-] & _ & Hp & _ & Hst).
    rewrite Ep in Hp. injection Hp as <-. done.
  - pose proof (handle_error_status e). intuition.
Qed.
End Errors.

(** ** The handler *)

Section HandlerProps.
Variable json_parse : string → option ParsedApiError.

Lemma data_url_truthy mt d : truthy (Some ("data:" +:+ mt +:+ ";base64," +:+ d)) = true.
Proof. reflexivity. Qed.

(** An image URL collected from the parts is never empty. *)
Lemma collect_result_image_truthy r :
  truthy (fst (collect_result r)) = bool_decide (is_Some (fst (collect_result r))).
Proof.
  rewrite collect_result_spec. simpl.
  destruct (last (omap part_image _)) as [u|] eqn:E; [|done].
  apply last_Some_elem_of, list_elem_of_omap in E as (p & _ & Hp).
  unfold part_image in Hp. destruct (truthy (rp_text p)); [done|].
  destruct (rp_inlineData p) as [[mt d]|]; [|done]. simpl in Hp. injection Hp as <-. done.
Qed.

(** (C16) The guards: a method other than POST is answered 405 whatever
    else holds; a POST without a (non-empty) API key is answered 500 with
    "API key not configured", before the body is read. *)
Theorem handler_guards method apiKey body sdk :
  (method ≠ "POST" →
     handler json_parse method apiKey body sdk = mkResponse 405 (ErrorBody "Method not allowed")) ∧
  (truthy apiKey = false →
     handler json_parse "POST" apiKey body sdk = mkResponse 500 (ErrorBody "API key not configured")).
Proof.
  split; intros H; unfold handler.
  - by destruct (String.eqb_spec method "POST").
  - by rewrite H.
Qed.

(** (C17) The only statuses the handler answers with are 200, 400, 405,
    429, 451 and 500. *)
Theorem handler_status method apiKey body sdk :
  status (handler json_parse method apiKey body sdk) ∈ [200; 400; 405; 429; 451; 500]%Z.
Proof.
  assert (Hin : ∀ z : Z, z = 200%Z ∨ z = 400%Z ∨ z = 405%Z ∨ z = 429%Z ∨ z = 451%Z ∨ z = 500%Z →
    z ∈ [200; 400; 405; 429; 451; 500]%Z).
  { intros z Hz. rewrite list_elem_of_In. simpl. lia. }
  apply Hin. unfold handler. destruct (negb _); [simpl; lia|]. destruct (negb (truthy _)); [simpl; lia|].
  assert (Herr : ∀ e, let z := status (handle_error json_parse e) in
    z = 200%Z ∨ z = 400%Z ∨ z = 405%Z ∨ z = 429%Z ∨ z = 451%Z ∨ z = 500%Z).
  { intros e. simpl. destruct (handle_error_status json_parse e) as [-> | [-> | ->]]; lia. }
  destruct body as [e|b]; [apply Herr|]. destruct (sdk (build_parts b)) as [e|r]; [apply Herr|].
  destruct (collect_result r) as [i t]. destruct (negb (truthy i)); simpl; lia.
Qed.

(** (C3) A 200 answer happens exactly when the request is a POST with an
    API key, the body parsed, the SDK returned, and the first candidate has
    an image part; its body is then the collected [{ imageUrl, text }]. *)
Theorem handler_success method apiKey body sdk rb :
  handler json_parse method apiKey body sdk = mkResponse 200 rb ↔
  method = "POST" ∧ truthy apiKey = true ∧
  ∃ b r, body = inr b ∧ sdk (build_parts b) = inr r ∧ is_Some (fst (collect_result r)) ∧
         rb = ResultBody (fst (collect_result r)) (snd (collect_result r)).
Proof.
  unfold handler. destruct (String.eqb_spec method "POST") as [->|Hm]; simpl;
    [|split; [by intros [=]|intros [? _]; congruence]].
  destruct (truthy apiKey); simpl; [|split; [by intros [=]|intros (_ & [=] & _)]].
  assert (Herr : ∀ e, handle_error json_parse e ≠ mkResponse 200 rb).
  { intros e He. destruct (handle_error_status json_parse e) as [H|[H|H]]; rewrite He in H; done. }
  destruct body as [e|b].
  { split; [by intros ?%Herr|by intros (_ & _ & ? & ? & [=] & _)]. }
  destruct (sdk (build_parts b)) as [e|r] eqn:Es.
  { split; [by intros ?%Herr|intros (_ & _ & ? & ? & [= <-] & Hs & _); congruence]. }
  pose proof (collect_result_image_truthy r) as Ht.
  destruct (collect_result r) as [[u|] t] eqn:Ec; cbn [fst snd] in *.
  all: replace (truthy _) with (bool_decide (is_Some (fst (collect_result r)))) by (by rewrite Ht, Ec);
    rewrite Ec; simpl.
  - split.
    + intros [= <-]. split_and!; [done|done|]. exists b, r. by rewrite Ec.
    + intros (_ & _ & b' & r' & [= <-] & Hs & _ & ->). rewrite Es in Hs.
      injection Hs as <-. by rewrite Ec.
  - split; [done|]. intros (_ & _ & b' & r' & [= <-] & Hs & Hi & _).
    rewrite Es in Hs. injection Hs as <-. rewrite Ec in Hi. by destruct Hi.
Qed.
End HandlerProps.

Section NoImage.
Variable json_parse : string → option ParsedApiError.

Lemma string_app_nonempty_l (x y : string) : x ≠ "" → x +:+ y ≠ "".
Proof. destruct x; [done|]. rewrite string_app_cons. discriminate. Qed.

Lemma collect_result_text_truthy r t : snd (collect_result r) = Some t → t ≠ "".
Proof.
  rewrite collect_result_spec. simpl.
  destruct (omap part_text _) as [|x ts] eqn:E; [done|]. intros [= <-].
  assert (Hx : x ≠ "").
  { assert (Hin : x ∈ omap part_text (default [] (response_parts r))) by (rewrite E; constructor).
    apply list_elem_of_omap in Hin as (p & _ & Hp). by apply (part_text_nonempty p). }
  destruct ts; cbn [join]; [done|]. by apply string_app_nonempty_l.
Qed.

Lemma no_blocked rs :
  (∀ x, x ∈ rs → sr_blocked x = false) → filter (λ x, sr_blocked x = true) rs = [].
Proof.
  induction rs as [|x rs IH]; intros Hb; [done|].
  rewrite filter_cons_False; [apply IH; intros y Hy; apply Hb; by right|].
  rewrite (Hb x) by constructor. discriminate.
Qed.

(** (C18) When the SDK answers without an image the handler answers 400:
    with the model's text quoted when there is text; otherwise, when the
    first candidate stopped for [SAFETY] and no rating is marked blocked,
    with a message that names the categories as "Unknown". *)
Theorem handler_no_image apiKey b sdk r :
  truthy apiKey = true → sdk (build_parts b) = inr r → fst (collect_result r) = None →
  (∀ t, snd (collect_result r) = Some t →
     handler json_parse "POST" apiKey (inr b) sdk =
       mkResponse 400 (ErrorBody ("The model responded: " +:+ dq +:+ t +:+ dq))) ∧
  (snd (collect_result r) = None →
   (first_candidate r ≫= c_finishReason) = Some "SAFETY" →
   (∀ c rs, first_candidate r = Some c → c_safetyRatings c = Some rs → ∀ x, x ∈ rs → sr_blocked x = false) →
     handler json_parse "POST" apiKey (inr b) sdk =
       mkResponse 400 (ErrorBody ("The request was blocked for safety reasons. Categories: Unknown"
                                  +:+ ". Please modify your prompt or image."))).
Proof.
  intros Hk Hs Hi. unfold handler. rewrite Hk, Hs. simpl.
  destruct (collect_result r) as [i t0] eqn:Ec. simpl in Hi. subst i. simpl. split.
  - intros t [= ->]. unfold no_image_message.
    assert (Ht : truthy (Some t) = true).
    { unfold truthy. pose proof (collect_result_text_truthy r t) as Hne. rewrite Ec in Hne.
      destruct (String.eqb_spec t ""); [by destruct Hne|done]. }
    by rewrite Ht.
  - intros -> Hsafe Hblocked. unfold no_image_message. cbn [truthy].
    rewrite Hsafe, bool_decide_true by done.
    match goal with |- context [truthy ?x] => assert (Hc : truthy x = false) end.
    { destruct (first_candidate r) as [c|] eqn:Ef; [|done]. simpl.
      destruct (c_safetyRatings c) as [rs|] eqn:Er; [|done]. simpl.
      rewrite (no_blocked rs); [done|]. intros x Hx. by apply (Hblocked c rs). }
    by rewrite Hc.
Qed.
End NoImage.

(** ** Concrete requests *)

Definition no_parse : string → option ParsedApiError := λ _, None.
Definition sample_body : Body := mkBody "iVBOR" "image/png" "make it blue" None None.
Definition image_response : GenResponse :=
  mkGenResponse (Some [mkCandidate (Some [mkRespPart None (Some ("image/png", "QUJD"))]) (Some "STOP") None]).
Definition safety_response : GenResponse :=
  mkGenResponse (Some [mkCandidate None (Some "SAFETY") (Some [mkSafetyRating "HARM" false])]).

Lemma handler_guards_witness :
  handler no_parse "GET" None (inr sample_body) (λ _, inr image_response)
    = mkResponse 405 (ErrorBody "Method not allowed") ∧
  handler no_parse "POST" None (inr sample_body) (λ _, inr image_response)
    = mkResponse 500 (ErrorBody "API key not configured").
Proof.
  split.
  - apply (handler_guards no_parse "GET" None (inr sample_body) (λ _, inr image_response)).
    discriminate.
  - apply (handler_guards no_parse "POST" None (inr sample_body) (λ _, inr image_response)).
    reflexivity.
Defined.

Lemma handle_error_codes_witness :
  status (handle_error no_parse (ErrorObj "User location is not supported")) = 451%Z.
Proof.
  apply (handle_error_codes no_parse (ErrorObj "User location is not supported")).
  exists "User location is not supported". split; [done|vm_compute; reflexivity].
Defined.

Lemma handler_success_witness :
  handler no_parse "POST" (Some "key") (inr sample_body) (λ _, inr image_response)
    = mkResponse 200 (ResultBody (Some "data:image/png;base64,QUJD") None).
Proof.
  apply (handler_success no_parse "POST" (Some "key") (inr sample_body) (λ _, inr image_response)).
  split_and!; [done|done|]. exists sample_body, image_response.
  split_and!; [done|done|by eexists|reflexivity].
Defined.

Lemma handler_no_image_witness :
  handler no_parse "POST" (Some "key") (inr sample_body) (λ _, inr safety_response)
    = mkResponse 400 (ErrorBody ("The request was blocked for safety reasons. Categories: Unknown"
                                 +:+ ". Please modify your prompt or image.")).
Proof.
  apply (handler_no_image no_parse (Some "key") sample_body (λ _, inr safety_response) safety_response);
    [reflexivity | reflexivity | reflexivity | reflexivity | reflexivity |].
  intros c rs [= <-] [= <-] x Hx. apply list_elem_of_singleton in Hx. by subst x.
Defined.
