(* ===== verification/Video.v ===== *)
(** * Video: the video-generation handler of [src/api/video.ts]

    [handler(req)] (lines 7-89) checks the method and the API key, parses
    the body, starts a long-running operation with
    [ai.models.generateVideos], then polls it with
    [ai.operations.getVideosOperation] every 10 seconds
    [while (!operation.done)]; a finished operation gives 200 with its
    download link, or an error that the [catch] block turns into 500.

    The polling loop has no bound in the source.  Its k-th poll answer is
    an input ([polls k]); the loop is a fuel interpreter [poll_loop] that
    also counts the polls (each after a 10 s [setTimeout]) and a step relation
    [poll_step] on loop states, and the two are proved to agree.  The loop
    stops when the answers reach a finished operation, and runs forever
    (no fuel suffices, an infinite [poll_step] sequence exists) when they
    never do; [poll_inv] is the invariant of the reachable loop states. *)

From stdpp Require Import list strings relations.
From Stdlib Require Import ZArith Ascii Lia.
From S2P Require Import Prelude Http.

Local Open Scope string_scope.

(** ** Data *)

(** The parsed body [{ prompt, image, aspectRatio }] (line 27). *)
Record VideoBody := mkVideoBody {
  vb_prompt : string;
  vb_image : option (string * string);   (** (base64, mimeType) *)
  vb_aspectRatio : string
}.

(** The request of lines 32-45: the model, the prompt, one video at the
    given aspect ratio, and the image when one was sent. *)
Record VideoRequest := mkVideoRequest {
  vr_model : string;
  vr_prompt : string;
  vr_numberOfVideos : Z;
  vr_aspectRatio : string;
  vr_image : option (string * string)    (** (imageBytes, mimeType) *)
}.

(** A long-running operation as the loop reads it: [done], [error] (present
    or not, with its [message] if any) and
    [response?.generatedVideos?.[0]?.video?.uri]. *)
Record Operation := mkOperation {
  op_done : bool;
  op_error : option (option string);
  op_uri : option string
}.

(** The JSON objects the handler answers with. *)
Inductive VideoJson :=
  | VErrorBody (error : string)
  | DownloadBody (downloadLink : string).

(** ** Operations *)

Definition build_request (b : VideoBody) : VideoRequest :=
  mkVideoRequest "veo-2.0-generate-001" (vb_prompt b) 1 (vb_aspectRatio b) (vb_image b).

(** The polling loop of lines 50-53 from its [k]-th poll on: [Some (r, k')]
    when it exits after [k'] polls in all, with the finished operation or
    the exception of a poll; [None] when the fuel runs out first. *)
Fixpoint poll_loop (polls : nat → JsError + Operation) (fuel k : nat) (op : Operation)
    : option ((JsError + Operation) * nat) :=
  match fuel with
  | O => None
  | S fuel' =>
      if op_done op then Some (inr op, k)
      else
        match polls k with
        | inl e => Some (inl e, S k)
        | inr op' => poll_loop polls fuel' (S k) op'
        end
  end.

(** Lines 55-68: a finished operation gives the link or throws. *)
Definition finish (op : Operation) : JsError + string :=
  match op_error op with
  | Some m => inl (ErrorObj (if truthy m then default "" m else "Video generation failed during operation."))
  | None =>
      if truthy (op_uri op) then inr (default "" (op_uri op))
      else inl (ErrorObj "Video generation completed, but no download link was found.")
  end.

Section Handler.
(** [JSON.parse(message).error], as in [Http]. *)
Variable json_parse : string → option ParsedApiError.

(** The [catch] block, lines 70-88: always 500. *)
Definition handle_video_error (e : JsError) : HttpResponse VideoJson :=
  match e with
  | NonError => mkResponse 500 (VErrorBody "An unknown error occurred during video generation.")
  | ErrorObj msg =>
      match json_parse msg with
      | Some pe => if truthy (pe_message pe) then mkResponse 500 (VErrorBody (default "" (pe_message pe)))
                   else mkResponse 500 (VErrorBody msg)
      | None => mkResponse 500 (VErrorBody msg)
      end
  end.

(** [handler(req)] with [fuel] rounds of the polling loop; [None] when the
    loop is still polling. *)
Definition video_handler (method : string) (apiKey : option string) (body : JsError + VideoBody)
    (generateVideos : VideoRequest → JsError + Operation) (polls : nat → JsError + Operation)
    (fuel : nat) : option (HttpResponse VideoJson) :=
  if negb (String.eqb method "POST") then Some (mkResponse 405 (VErrorBody "Method not allowed"))
  else if negb (truthy apiKey) then Some (mkResponse 500 (VErrorBody "API key not configured"))
  else
    match body with
    | inl e => Some (handle_video_error e)
    | inr b =>
        match generateVideos (build_request b) with
        | inl e => Some (handle_video_error e)
        | inr op0 =>
            match poll_loop polls fuel 0 op0 with
            | None => None
            | Some (inl e, _) => Some (handle_video_error e)
            | Some (inr op, _) =>
                match finish op with
                | inl e => Some (handle_video_error e)
                | inr link => Some (mkResponse 200%Z (DownloadBody link))
                end
            end
        end
    end.
End Handler.

(** ** The polling loop as a step relation *)

Inductive LoopState :=
  | AtHead (k : nat) (op : Operation)           (** at [while (!operation.done)] after [k] polls *)
  | Exited (r : JsError + Operation) (k : nat).  (** left the loop after [k] polls *)

Definition polls_done (s : LoopState) : nat :=
  match s with AtHead k _ => k | Exited _ k => k end.

Section Steps.
Variable polls : nat → JsError + Operation.

Inductive poll_step : LoopState → LoopState → Prop :=
  | step_done k op :
      op_done op = true → poll_step (AtHead k op) (Exited (inr op) k)
  | step_poll k op op' :
      op_done op = false → polls k = inr op' → poll_step (AtHead k op) (AtHead (S k) op')
  | step_throw k op e :
      op_done op = false → polls k = inl e → poll_step (AtHead k op) (Exited (inl e) (S k)).

(** An infinite sequence of steps from [s] (as in Leroy's [Sequences]). *)
Definition infseq (s : LoopState) : Prop :=
  ∃ X : LoopState → Prop, X s ∧ ∀ a, X a → ∃ b, poll_step a b ∧ X b.

Lemma exited_final r k s : ¬ poll_step (Exited r k) s.
Proof. inversion 1. Qed.

Lemma rtc_exited r k s : rtc poll_step (Exited r k) s → s = Exited r k.
Proof. inversion 1 as [|? ? ? Hs]; [done|]. by apply exited_final in Hs. Qed.

Lemma poll_step_mono s s' : poll_step s s' → (polls_done s ≤ polls_done s')%nat.
Proof. inversion 1; simpl; lia. Qed.

Lemma rtc_mono s s' : rtc poll_step s s' → (polls_done s ≤ polls_done s')%nat.
Proof. induction 1 as [|? ? ? Hs]; [done|]. apply poll_step_mono in Hs. lia. Qed.

(** The interpreter only returns what the relation reaches. *)
Lemma poll_loop_sound fuel k op r k' :
  poll_loop polls fuel k op = Some (r, k') → rtc poll_step (AtHead k op) (Exited r k').
Proof.
  revert k op. induction fuel as [|fuel IH]; intros k op H; [done|]. simpl in H.
  destruct (op_done op) eqn:Hd.
  { injection H as <- <-. apply rtc_once. by constructor. }
  destruct (polls k) as [e|op'] eqn:Hp.
  - injection H as <- <-. apply rtc_once. by constructor.
  - eapply rtc_l; [by eapply step_poll|]. by apply IH.
Qed.

(** With more fuel than polls the interpreter reaches every exit of the
    relation. *)
Lemma poll_loop_complete k op r k' :
  rtc poll_step (AtHead k op) (Exited r k') →
  ∀ fuel, (k' - k < fuel)%nat → poll_loop polls fuel k op = Some (r, k').
Proof.
  intros Hrtc. remember (AtHead k op) as s eqn:Hs. remember (Exited r k') as t eqn:Ht.
  revert k op Hs. induction Hrtc as [x|x y z Hxy Hyz IH]; intros k op -> fuel Hf; [done|].
  destruct fuel as [|fuel]; [lia|]. inversion Hxy as [? ? Hd|? ? op' Hd Hp|? ? e Hd Hp]; subst; simpl.
  - rewrite Hd. apply rtc_exited in Hyz. by injection Hyz as -> ->.
  - rewrite Hd, Hp. apply rtc_mono in Hyz as Hm. simpl in Hm.
    apply (IH eq_refl (S k) op' eq_refl). lia.
  - rewrite Hd, Hp. apply rtc_exited in Hyz. by injection Hyz as -> ->.
Qed.
End Steps.

(** ** The loop invariant *)

(** The [i]-th operation the loop sees: the one [generateVideos] returned,
    then the answers of the polls. *)
Definition answer (polls : nat → JsError + Operation) (op0 : Operation) (i : nat) : JsError + Operation :=
  match i with O => inr op0 | S i' => polls i' end.

(** After [k] polls the loop holds the [k]-th answer, and every earlier
    answer was an operation not yet done; it exits on a throwing poll or
    on a finished operation. *)
Definition poll_inv (polls : nat → JsError + Operation) (op0 : Operation) (s : LoopState) : Prop :=
  (∀ i, (i < polls_done s)%nat → ∃ o, answer polls op0 i = inr o ∧ op_done o = false) ∧
  match s with
  | AtHead k op => answer polls op0 k = inr op
  | Exited r k => answer polls op0 k = r ∧ ∀ op, r = inr op → op_done op = true
  end.

Lemma poll_inv_step polls op0 s s' :
  poll_step polls s s' → poll_inv polls op0 s → poll_inv polls op0 s'.
Proof.
  intros Hs [Hprev Hcur]. destruct Hs as [k op Hd|k op op' Hd Hp|k op e Hd Hp]; simpl in *.
  - split; [done|]. split; [done|]. by intros ? [= <-].
  - split; [|done]. intros i Hi. destruct (decide (i = k)) as [->|Hne]; [by exists op|]. apply Hprev. simpl in *. lia.
  - split; [|split; [done|by intros ? [=]]].
    intros i Hi. destruct (decide (i = k)) as [->|Hne]; [by exists op|]. apply Hprev. simpl in *. lia.
Qed.

Lemma rtc_poll_inv polls op0 s s' :
  rtc (poll_step polls) s s' → poll_inv polls op0 s → poll_inv polls op0 s'.
Proof. induction 1 as [|x y z Hxy _ IH]; [done|]. intros Hx. by apply IH, (poll_inv_step polls op0 x). Qed.

(** (C33) The invariant holds in every state the loop reaches from the
    operation [generateVideos] returned: the loop holds the latest answer,
    it polled again only after operations not yet done, and it leaves only
    on a throwing poll or on a finished operation. *)
Theorem poll_inv_reachable polls op0 s :
  rtc (poll_step polls) (AtHead 0 op0) s → poll_inv polls op0 s.
Proof. intros H. apply (rtc_poll_inv polls op0 _ _ H). split; [simpl; lia|done]. Qed.

(** ** The loop: termination and divergence *)

(** The interpreter and the step relation agree: the loop exits after
    [n] polls with [r] exactly when the interpreter, given more than [n]
    rounds of fuel, returns [(r, n)]. *)
Theorem poll_loop_exits polls op0 r n :
  rtc (poll_step polls) (AtHead 0 op0) (Exited r n) ↔
  ∀ fuel, (n < fuel)%nat → poll_loop polls fuel 0 op0 = Some (r, n).
Proof.
  split.
  - intros H fuel Hf. apply (poll_loop_complete polls 0 op0 r n H). lia.
  - intros H. apply (poll_loop_sound polls (S n)), H. lia.
Qed.

Lemma poll_loop_exits_witness :
  rtc (poll_step (λ k, inr (mkOperation (Nat.eqb k 2) None (Some "uri")))) (AtHead 0 (mkOperation false None None))
    (Exited (inr (mkOperation true None (Some "uri"))) 3).
Proof.
  apply (poll_loop_exits (λ k, inr (mkOperation (Nat.eqb k 2) None (Some "uri"))) _ _ 3).
  intros [|[|[|[|fuel]]]] Hf; [lia..|reflexivity].
Defined.

Lemma poll_loop_none polls fuel k op :
  (∀ k, ∃ op', polls k = inr op' ∧ op_done op' = false) → op_done op = false →
  poll_loop polls fuel k op = None.
Proof.
  intros Hpolls. revert k op. induction fuel as [|fuel IH]; intros k op Hop; [done|].
  simpl. rewrite Hop. destruct (Hpolls k) as (op' & -> & Hop'). by apply IH.
Qed.

(** (C25) The [while (!operation.done)] loop has no bound: when no poll
    ever reports a finished operation, no amount of fuel lets it exit, and
    the step relation has an infinite run. *)
Theorem poll_loop_diverges polls op0 :
  (∀ k, ∃ op, polls k = inr op ∧ op_done op = false) → op_done op0 = false →
  (∀ fuel, poll_loop polls fuel 0 op0 = None) ∧ infseq polls (AtHead 0 op0).
Proof.
  intros Hpolls H0. split; [intros; by apply poll_loop_none|].
  exists (λ s, ∃ k op, s = AtHead k op ∧ op_done op = false). split; [eauto|].
  intros a (k & op & -> & Hop). destruct (Hpolls k) as (op' & Hp & Hop').
  exists (AtHead (S k) op'). split; [by apply step_poll|eauto].
Qed.

Definition never_done : nat → JsError + Operation := λ _, inr (mkOperation false None None).

Lemma poll_loop_diverges_witness :
  poll_loop never_done 1000 0 (mkOperation false None None) = None ∧
  infseq never_done (AtHead 0 (mkOperation false None None)).
Proof.
  destruct (poll_loop_diverges never_done (mkOperation false None None)) as [H1 H2];
    [intros k; by eexists | reflexivity | split; [apply H1 | exact H2]].
Defined.

(** ** The handler *)

Lemma poll_loop_bound polls fuel k op op' k' :
  poll_loop polls fuel k op = Some (inr op', k') → (k' - k < fuel)%nat.
Proof.
  revert k op. induction fuel as [|fuel IH]; intros k op H; [done|]. simpl in H.
  destruct (op_done op); [injection H as _ H; clear IH; lia|].
  destruct (polls k); [done|]. apply IH in H. clear IH. lia.
Qed.

Lemma handle_video_error_status jp e : status (handle_video_error jp e) = 500%Z.
Proof. destruct e as [m|]; simpl; [destruct (jp m) as [pe|]; [destruct (truthy _)|]|]; done. Qed.

Lemma handle_video_error_not_download jp e link : body (handle_video_error jp e) ≠ DownloadBody link.
Proof. destruct e as [m|]; simpl; [destruct (jp m) as [pe|]; [destruct (truthy _)|]|]; done. Qed.

Lemma finish_ok op link :
  finish op = inr link ↔ op_error op = None ∧ op_uri op = Some link ∧ link ≠ "".
Proof.
  unfold finish. destruct (op_error op); [naive_solver|].
  destruct (op_uri op) as [u|]; simpl; [|naive_solver].
  destruct (String.eqb_spec u ""); simpl; naive_solver.
Qed.

Section HandlerProps.
Variable json_parse : string → option ParsedApiError.
Variables (method : string) (apiKey : option string) (req_body : JsError + VideoBody).
Variables (generateVideos : VideoRequest → JsError + Operation) (polls : nat → JsError + Operation).

(** (C26) The handler answers 200 with [link] exactly when the request is a
    POST with a key, the body parses, the operation starts, the polling loop
    reaches a finished operation within the fuel, and that operation has no
    error and the non-empty [uri] [link]. *)
Theorem video_handler_success fuel link :
  video_handler json_parse method apiKey req_body generateVideos polls fuel =
    Some (mkResponse 200%Z (DownloadBody link)) ↔
  method = "POST" ∧ truthy apiKey = true ∧
  ∃ b op0 op n, req_body = inr b ∧ generateVideos (build_request b) = inr op0 ∧
    rtc (poll_step polls) (AtHead 0 op0) (Exited (inr op) n) ∧ (n < fuel)%nat ∧
    op_error op = None ∧ op_uri op = Some link ∧ link ≠ "".
Proof.
  unfold video_handler. destruct (String.eqb_spec method "POST") as [Hm|Hm]; simpl; [|naive_solver].
  destruct (truthy apiKey); simpl; [|naive_solver].
  split.
  - destruct req_body as [e|b]; [intros [= H%(f_equal body)]; by apply (handle_video_error_not_download json_parse e link) in H|].
    destruct (generateVideos _) as [e|op0] eqn:Hg;
      [intros [= H%(f_equal body)]; by apply (handle_video_error_not_download json_parse e link) in H|].
    destruct (poll_loop _ _ _ _) as [[[e|op] n]|] eqn:Hl; [| |done];
      [intros [= H%(f_equal body)]; by apply (handle_video_error_not_download json_parse e link) in H|].
    destruct (finish op) as [e|l] eqn:Hf;
      [intros [= H%(f_equal body)]; by apply (handle_video_error_not_download json_parse e link) in H|].
    intros [= <-]. apply finish_ok in Hf as (? & ? & ?).
    apply poll_loop_bound in Hl as Hb. apply poll_loop_sound in Hl.
    split; [done|]. split; [done|]. exists b, op0, op, n. rewrite Nat.sub_0_r in Hb. naive_solver.
  - intros (_ & _ & b & op0 & op & n & -> & Hg & Hr & Hn & Hf).
    rewrite Hg, (poll_loop_complete polls 0 op0 _ n Hr fuel) by lia.
    by rewrite (proj2 (finish_ok op link) Hf).
Qed.

(** (C27) Whatever it answers, the handler answers 200, 405 or 500. *)
Theorem video_handler_status fuel resp :
  video_handler json_parse method apiKey req_body generateVideos polls fuel = Some resp →
  (status resp = 200 ∨ status resp = 405 ∨ status resp = 500)%Z.
Proof.
  unfold video_handler. intros H.
  repeat match type of H with
  | context [if ?c then _ else _] => destruct c
  | context [match ?x with _ => _ end] => destruct x
  end; try discriminate; injection H as <-; simpl; rewrite ?handle_video_error_status; auto.
Qed.

(** (C28) The handler can hang: a POST with a key whose operation starts
    unfinished and is never reported finished by any poll gets no answer,
    whatever the fuel, for the loop runs forever. *)
Theorem video_handler_hangs b op0 :
  method = "POST" → truthy apiKey = true → req_body = inr b →
  generateVideos (build_request b) = inr op0 → op_done op0 = false →
  (∀ k, ∃ op, polls k = inr op ∧ op_done op = false) →
  ∀ fuel, video_handler json_parse method apiKey req_body generateVideos polls fuel = None.
Proof.
  intros Hm Hk Hb Hg H0 Hpolls fuel. unfold video_handler. rewrite Hm, Hk, Hb. simpl.
  by rewrite Hg, (poll_loop_none polls fuel 0 op0 Hpolls H0).
Qed.
End HandlerProps.

Definition sample_video : VideoBody := mkVideoBody "a cat" None "16:9".
Definition starts_unfinished (_ : VideoRequest) : JsError + Operation := inr (mkOperation false None None).
Definition done_at_2 (k : nat) : JsError + Operation := inr (mkOperation (Nat.eqb k 2) None (Some "https://v/1")).

Lemma video_handler_success_witness :
  video_handler (λ _, None) "POST" (Some "key") (inr sample_video) starts_unfinished done_at_2 4 =
    Some (mkResponse 200%Z (DownloadBody "https://v/1")).
Proof.
  apply video_handler_success. split; [done|]. split; [done|].
  exists sample_video, (mkOperation false None None), (mkOperation true None (Some "https://v/1")), 3.
  repeat split; [|lia|done].
  apply (poll_loop_exits done_at_2 _ _ 3). intros [|[|[|[|fuel]]]] Hf; [lia..|reflexivity].
Defined.

Lemma video_handler_status_witness :
  status (default (mkResponse 0%Z (VErrorBody EmptyString)) (video_handler (λ _, None) "GET" None (inr sample_video) starts_unfinished done_at_2 0)) = 405%Z.
Proof.
  destruct (video_handler_status (λ _, None) "GET" None (inr sample_video) starts_unfinished done_at_2 0
    (mkResponse 405%Z (VErrorBody "Method not allowed")) eq_refl) as [H|[H|H]]; simpl in *; [discriminate|done|discriminate].
Defined.

Lemma video_handler_hangs_witness :
  video_handler (λ _, None) "POST" (Some "key") (inr sample_video) starts_unfinished never_done 1000 = None.
Proof. apply (video_handler_hangs _ _ _ _ _ _ sample_video (mkOperation false None None)); try done. intros k; by eexists. Defined.

Lemma poll_inv_reachable_witness :
  poll_inv done_at_2 (mkOperation false None None) (Exited (inr (mkOperation true None (Some "https://v/1"))) 3).
Proof.
  apply poll_inv_reachable.
  eapply rtc_l; [apply step_poll; reflexivity|].
  eapply rtc_l; [apply step_poll; reflexivity|].
  eapply rtc_l; [apply step_poll; reflexivity|].
  apply rtc_once, step_done. reflexivity.
Defined.
