(* ===== verification/Json.v ===== *)
(** * Json: the JSON values that travel between handlers, router and client

    The handlers answer with [JSON.stringify] of an object literal
    ([{ error }], the [GeneratedContent] result, [{ downloadLink }]), the
    router forwards that text unchanged and the client reads it back with
    [response.json()] and property accesses.  The text itself is not
    modelled: a body is the JSON value it denotes ([json], after the
    [json] type of QCert's JSON model, restricted to the null, string and
    object values the program builds).  [ToJson] is the interface of a body
    type with its encoding; [jprop] is a property read on a parsed value,
    throwing on [null] as JS does; [jtype] and [has_type] are the TypeScript
    types the client expects of a body. *)

From stdpp Require Import list strings.
From Stdlib Require Import ZArith Ascii Lia.
From S2P Require Import Prelude Http Gemini Video.

Local Open Scope string_scope.

(** ** Values *)

Inductive json :=
  | jnull
  | jstring (s : string)
  | jobject (fields : list (string * json)).

(** The value of property [k] in a parsed object: [JSON.parse] keeps the
    last of duplicated keys. *)
Fixpoint field (k : string) (fs : list (string * json)) : option json :=
  match fs with
  | [] => None
  | (k', v) :: fs' =>
      match field k fs' with
      | Some w => Some w
      | None => if String.eqb k k' then Some v else None
      end
  end.

(** [v.k] on a parsed value: [None] is [undefined]; reading a property of
    [null] throws a [TypeError]. *)
Definition jprop (v : json) (k : string) : JsError + option json :=
  match v with
  | jnull => inl (ErrorObj ("Cannot read properties of null (reading '" +:+ k +:+ "')"))
  | jstring _ => inr None
  | jobject fs => inr (field k fs)
  end.

(** JS truthiness of a property read, and [String(v)] of a truthy one as
    [new Error(v)] computes it. *)
Definition jtruthy (v : option json) : bool :=
  match v with
  | Some (jstring s) => negb (String.eqb s "")
  | Some (jobject _) => true
  | _ => false
  end.

Definition jstring_of (v : json) : string :=
  match v with
  | jnull => "null"
  | jstring s => s
  | jobject _ => "[object Object]"
  end.

(** ** Encodings of the bodies *)

(** A body type and the JSON object its handler stringifies. *)
Class ToJson (A : Type) := to_json : A → json.

Definition error_json (msg : string) : json := jobject [("error", jstring msg)].

Definition opt_json (s : option string) : json :=
  match s with Some x => jstring x | None => jnull end.

(** [src/api/gemini.ts]: [JSON.stringify({ error })] and
    [JSON.stringify(result)] with [result = { imageUrl, text }]. *)
#[export] Instance gemini_to_json : ToJson JsonBody := λ b,
  match b with
  | ErrorBody e => error_json e
  | ResultBody imageUrl text => jobject [("imageUrl", opt_json imageUrl); ("text", opt_json text)]
  end.

(** [src/api/video.ts]: [JSON.stringify({ error })] and
    [JSON.stringify({ downloadLink })]. *)
#[export] Instance video_to_json : ToJson VideoJson := λ b,
  match b with
  | VErrorBody e => error_json e
  | DownloadBody l => jobject [("downloadLink", jstring l)]
  end.

(** ** Types of bodies *)

Inductive jtype :=
  | TString
  | TNull
  | TUnion (a b : jtype)
  | TObject (fields : list (string * jtype)).

(** [v] has type [t]: an object type asks for each of its fields. *)
Fixpoint has_type (t : jtype) (v : json) : bool :=
  match t, v with
  | TString, jstring _ => true
  | TNull, jnull => true
  | TUnion a b, _ => has_type a v || has_type b v
  | TObject fts, jobject fs =>
      forallb (λ ft, match field ft.1 fs with Some w => has_type ft.2 w | None => false end) fts
  | _, _ => false
  end.

(** [{ error: string }]. *)
Definition ErrorT : jtype := TObject [("error", TString)].

(** [GeneratedContent] as the handler builds it:
    [{ imageUrl: string | null; text: string | null }]. *)
Definition GeneratedContentT : jtype :=
  TObject [("imageUrl", TUnion TString TNull); ("text", TUnion TString TNull)].

(** [{ downloadLink: string }]. *)
Definition DownloadT : jtype := TObject [("downloadLink", TString)].

(** ** Lemmas *)

Lemma field_single k v : field k [(k, v)] = Some v.
Proof. simpl. by rewrite String.eqb_refl. Qed.

Lemma has_type_error_json msg : has_type ErrorT (error_json msg) = true.
Proof. done. Qed.

Lemma jprop_error_json msg : jprop (error_json msg) "error" = inr (Some (jstring msg)).
Proof. done. Qed.

Lemma has_type_opt_json s : has_type (TUnion TString TNull) (opt_json s) = true.
Proof. by destruct s. Qed.

#[export] Hint Resolve has_type_error_json has_type_opt_json : nb.

(** The error bodies are read back by [errorData.error]. *)
Lemma jprop_typed_error v :
  has_type ErrorT v = true → ∃ msg, jprop v "error" = inr (Some (jstring msg)).
Proof.
  destruct v as [|s|fs]; try done. simpl.
  destruct (field "error" fs) as [[]|]; simpl; try done. eauto.
Qed.

(** ** The handlers answer typed bodies *)

(** The body type the client can expect with a status of [s]. *)
Definition gemini_body_type (s : Z) : jtype :=
  if Z.eqb s 200 then GeneratedContentT else ErrorT.

Definition video_body_type (s : Z) : jtype :=
  if Z.eqb s 200 then DownloadT else ErrorT.

(** Every answer of the Gemini handler is typed by its status: a 200
    carries a [GeneratedContent] ([imageUrl] and [text], each a string or
    null), every other status an [{ error: string }] object. *)
Theorem gemini_handler_typed json_parse method apiKey b sdk :
  let r := handler json_parse method apiKey b sdk in
  has_type (gemini_body_type (status r)) (to_json (body r)) = true.
Proof.
  unfold handler, handle_error. repeat case_match; simpl; try done.
  repeat match goal with o : option string |- _ => destruct o end; done.
Qed.

(** Every answer of the video handler is typed by its status: a 200
    carries [{ downloadLink: string }], every other status
    [{ error: string }]. *)
Theorem video_handler_typed json_parse method apiKey b gen polls fuel r :
  video_handler json_parse method apiKey b gen polls fuel = Some r →
  has_type (video_body_type (status r)) (to_json (body r)) = true.
Proof. unfold video_handler, handle_video_error. intros H. repeat case_match; simplify_eq; done. Qed.
