(* ===== verification/Server.v ===== *)
(** * Server: the local API router of [src/server.js] and the dev proxy

    [createServer(async (req, res) => ...)] (lines 16-89) sets the CORS
    headers, answers [OPTIONS] at once, and otherwise routes on the
    pathname: [/api/gemini] and [/api/video] collect the body chunks,
    flatten the headers, build a Web [Request] and forward the handler's
    status and body text; any other path gets 404, and anything thrown
    gets 500.  The two handlers are seen through the [Endpoint] record (a
    request to a response, a throw, or no answer when the handler does not
    settle); [gemini_endpoint] and [video_endpoint] implement it with the
    handlers of [Gemini] and [Video], and the class [EndpointTyped] is what
    an endpoint promises the router about its bodies.  [vite_proxy] is the
    [proxy.on('error')] handler of [src/vite.config.ts] (lines 15-26). *)

From stdpp Require Import list strings gmap.
From Stdlib Require Import ZArith Ascii Lia.
From S2P Require Import Prelude Http Gemini Video Json.

Local Open Scope string_scope.

(** ** Data *)

(** A value of Node's [req.headers]: a string, or an array of them. *)
Inductive HeaderValue :=
  | HStr (s : string)
  | HArr (vs : list string).

(** The Node request: [req.method], [req.url], [Object.entries(req.headers)]
    and the chunks [for await (const chunk of req)] reads. *)
Record NodeRequest := mkNodeRequest {
  nr_method : string;
  nr_url : string;
  nr_headers : list (string * HeaderValue);
  nr_chunks : list string
}.

(** The Web [Request] handed to a handler; a header value [None] is the
    [undefined] that [value[0]] gives for an empty array. *)
Record WebRequest := mkWebRequest {
  rq_method : string;
  rq_url : string;
  rq_headers : gmap string (option string);
  rq_body : option string
}.

(** What [res.end] sends: nothing, or a JSON text. *)
Inductive Wire :=
  | NoBody
  | JsonText (v : json).

(** The response written with [res.setHeader], [res.writeHead] and
    [res.end]: headers in the order they are set. *)
Record ServerOut := mkOut {
  out_status : Z;
  out_headers : list (string * string);
  out_body : Wire
}.

(** A handler as the router calls it: [None] when its promise never
    settles, [inl] when it rejects. *)
Record Endpoint := mkEndpoint {
  ep_run : WebRequest → option (JsError + HttpResponse json)
}.

(** ** Operations *)

Definition PORT : string := "3000".

(** Lines 21-23. *)
Definition cors_headers : list (string * string) :=
  [("Access-Control-Allow-Origin", "*");
   ("Access-Control-Allow-Methods", "GET, POST, OPTIONS");
   ("Access-Control-Allow-Headers", "Content-Type")].

Definition json_header : string * string := ("Content-Type", "application/json").

(** [parse(req.url, true).pathname] of an origin-form request target: the
    part before the query or the fragment. *)
Fixpoint pathname (url : string) : string :=
  match url with
  | EmptyString => EmptyString
  | String c rest =>
      if bool_decide (c = "?"%char ∨ c = "#"%char) then EmptyString else String c (pathname rest)
  end.

(** Lines 35-38: [body += chunk] for every chunk. *)
Definition read_body (chunks : list string) : string := foldl String.append "" chunks.

(** Line 43: [if (value) acc[key] = Array.isArray(value) ? value[0] : value];
    [None] when the value is falsy (the empty string) and nothing is set. *)
Definition header_entry (v : HeaderValue) : option (option string) :=
  match v with
  | HStr s => if String.eqb s "" then None else Some (Some s)
  | HArr vs => Some (head vs)
  end.

Definition flatten_step (acc : gmap string (option string)) (kv : string * HeaderValue)
    : gmap string (option string) :=
  match header_entry kv.2 with Some x => <[kv.1 := x]> acc | None => acc end.

(** Lines 42-45: the [reduce] over [Object.entries(req.headers)] from [{}]. *)
Definition flatten_headers (hs : list (string * HeaderValue)) : gmap string (option string) :=
  foldl flatten_step ∅ hs.

(** [String.prototype.toUpperCase] on the ASCII letters of a method token. *)
Definition upper_char (c : ascii) : ascii :=
  let n := nat_of_ascii c in if (97 <=? n)%nat && (n <=? 122)%nat then ascii_of_nat (n - 32) else c.

Fixpoint to_upper (s : string) : string :=
  match s with
  | EmptyString => EmptyString
  | String c s' => String (upper_char c) (to_upper s')
  end.

(** The Fetch standard's forbidden methods, matched case-insensitively. *)
Definition forbidden_method (m : string) : bool :=
  bool_decide (to_upper m ∈ ["CONNECT"; "TRACE"; "TRACK"]).

(** Method normalisation: the six standard methods are uppercased, any other
    method is kept as sent. *)
Definition normalize_method (m : string) : string :=
  let u := to_upper m in
  if bool_decide (u ∈ ["DELETE"; "GET"; "HEAD"; "OPTIONS"; "POST"; "PUT"]) then u else m.

(** Line 46: [body || undefined]. *)
Definition request_body (chunks : list string) : option string :=
  let b := read_body chunks in if String.eqb b "" then None else Some b.

(** Lines 40-47: [new Request(url, { method, headers, body: body || undefined })].
    The constructor throws a [TypeError] for a forbidden method, then
    normalises the method, then throws a [TypeError] for a [GET] or [HEAD]
    request with a body. *)
Definition make_request (r : NodeRequest) (path : string) : JsError + WebRequest :=
  let body := request_body (nr_chunks r) in
  if forbidden_method (nr_method r)
  then inl (ErrorObj ("'" +:+ nr_method r +:+ "' HTTP method is unsupported."))
  else
    let method := normalize_method (nr_method r) in
    if bool_decide (method = "GET" ∨ method = "HEAD") && bool_decide (is_Some body)
    then inl (ErrorObj "Request with GET/HEAD method cannot have body.")
    else inr (mkWebRequest method ("http://localhost:" +:+ PORT +:+ path)
                           (flatten_headers (nr_headers r)) body).

(** Lines 82-87: the [catch] of the router. *)
Definition server_error (e : JsError) : ServerOut :=
  mkOut 500 (app cors_headers [json_header])
    (JsonText (error_json (match e with ErrorObj m => m | NonError => "Internal Server Error" end))).

(** Lines 33-55 (and 56-77 alike): build the request, await the handler,
    forward its status and body text. *)
Definition forward (e : Endpoint) (r : NodeRequest) (path : string) : option ServerOut :=
  match make_request r path with
  | inl err => Some (server_error err)
  | inr rq =>
      match ep_run e rq with
      | None => None
      | Some (inl err) => Some (server_error err)
      | Some (inr resp) => Some (mkOut (status resp) (app cors_headers [json_header]) (JsonText (body resp)))
      end
  end.

(** The request listener, lines 16-89; [None] when the awaited handler
    never settles. *)
Definition serve (gemini video : Endpoint) (r : NodeRequest) : option ServerOut :=
  if String.eqb (nr_method r) "OPTIONS" then Some (mkOut 200 cors_headers NoBody)
  else
    let path := pathname (nr_url r) in
    if String.eqb path "/api/gemini" then forward gemini r path
    else if String.eqb path "/api/video" then forward video r path
    else Some (mkOut 404 (app cors_headers [json_header]) (JsonText (error_json "Not Found"))).

(** [src/vite.config.ts] lines 15-26: the dev server proxies [/api] to the
    router; when the router cannot be reached it answers 500. *)
Definition proxy_message : string :=
  "API server is not running. Please ensure your API key is configured in .env.local and the backend is running.".

Definition vite_proxy (backend : JsError + ServerOut) : ServerOut :=
  match backend with
  | inl _ => mkOut 500 [json_header] (JsonText (error_json proxy_message))
  | inr out => out
  end.

(** ** The handlers as endpoints *)

Section Endpoints.
Variable json_parse : string → option ParsedApiError.
(** [process.env.GEMINI_API_KEY]. *)
Variable apiKey : option string.

Definition respond {B} `{ToJson B} (r : HttpResponse B) : HttpResponse json :=
  mkResponse (status r) (to_json (body r)).

(** [await req.json()] and the destructuring of the Gemini body. *)
Variable gemini_body : option string → JsError + Body.
Variable sdk : list Part → JsError + GenResponse.

Definition gemini_endpoint : Endpoint :=
  mkEndpoint (λ rq, Some (inr (respond (handler json_parse (rq_method rq) apiKey (gemini_body (rq_body rq)) sdk)))).

Variable video_body : option string → JsError + VideoBody.
Variable generateVideos : VideoRequest → JsError + Operation.
Variable polls : nat → JsError + Operation.
Variable fuel : nat.

Definition video_endpoint : Endpoint :=
  mkEndpoint (λ rq, (λ r, inr (respond r)) <$>
    video_handler json_parse (rq_method rq) apiKey (video_body (rq_body rq)) generateVideos polls fuel).
End Endpoints.

(** ** The interface the router relies on *)

(** An endpoint answers JSON bodies of the type [ty s] for its status [s]. *)
Class EndpointTyped (e : Endpoint) (ty : Z → jtype) :=
  endpoint_typed : ∀ rq resp, ep_run e rq = Some (inr resp) → has_type (ty (status resp)) (body resp) = true.

#[export] Instance gemini_endpoint_typed jp k gb sdk :
  EndpointTyped (gemini_endpoint jp k gb sdk) gemini_body_type.
Proof. intros rq resp [= <-]. apply gemini_handler_typed. Qed.

#[export] Instance video_endpoint_typed jp k vb gen polls fuel :
  EndpointTyped (video_endpoint jp k vb gen polls fuel) video_body_type.
Proof.
  intros rq resp. simpl. destruct (video_handler _ _ _ _ _ _ _) as [r|] eqn:H; [|done].
  intros [= <-]. by eapply video_handler_typed.
Qed.

(** The body type a client can expect on [path] with status [s]: what the
    endpoint promises, or the router's own [{ error }]. *)
Definition route_type (tg tv : Z → jtype) (path : string) (s : Z) : jtype :=
  if String.eqb path "/api/gemini" then TUnion ErrorT (tg s)
  else if String.eqb path "/api/video" then TUnion ErrorT (tv s)
  else ErrorT.

(** ** Lemmas *)

Lemma server_error_typed e t : ∃ j, out_body (server_error e) = JsonText j ∧ has_type (TUnion ErrorT t) j = true.
Proof. eexists. split; [done|]. simpl. by destruct e. Qed.

Lemma forward_headers e r p out : forward e r p = Some out → out_headers out = app cors_headers [json_header].
Proof. unfold forward. repeat case_match; by intros [= <-]. Qed.

Lemma forward_typed e ty `{!EndpointTyped e ty} r p out :
  forward e r p = Some out → ∃ j, out_body out = JsonText j ∧ has_type (TUnion ErrorT (ty (out_status out))) j = true.
Proof.
  unfold forward. destruct (make_request r p) as [err|rq]; [intros [= <-]; apply server_error_typed|].
  destruct (ep_run e rq) as [[err|resp]|] eqn:He; intros [= <-]; [apply server_error_typed|].
  eexists. split; [done|]. simpl. apply orb_true_iff. right. by eapply endpoint_typed.
Qed.

Lemma foldl_flatten_notin hs acc k :
  k ∉ hs.*1 → foldl flatten_step acc hs !! k = acc !! k.
Proof.
  revert acc. induction hs as [|[k' v] hs IH]; intros acc Hk; [done|].
  rewrite fmap_cons, elem_of_cons in Hk. simpl. rewrite IH by naive_solver.
  unfold flatten_step. simpl. destruct (header_entry v); [|done]. rewrite lookup_insert_ne; naive_solver.
Qed.

Lemma foldl_flatten_in hs acc k v :
  NoDup hs.*1 → (k, v) ∈ hs →
  foldl flatten_step acc hs !! k = match header_entry v with Some x => Some x | None => acc !! k end.
Proof.
  revert acc. induction hs as [|[k' v'] hs IH]; intros acc Hnd Hin; [by apply elem_of_nil in Hin|].
  rewrite fmap_cons in Hnd. apply NoDup_cons in Hnd as [Hk' Hnd]. simpl.
  apply elem_of_cons in Hin as [[= <- <-]|Hin].
  - rewrite foldl_flatten_notin by done. unfold flatten_step. simpl.
    destruct (header_entry v); [apply lookup_insert_eq|done].
  - rewrite IH by done. destruct (header_entry v); [done|]. unfold flatten_step. simpl.
    assert (k ≠ k') by (intros ->; apply Hk', (list_elem_of_fmap_2 fst _ (k', v) Hin)).
    destruct (header_entry v'); [by rewrite lookup_insert_ne|done].
Qed.

(** The Web [Request] can be built: the method is not forbidden, and a
    [GET] or [HEAD] request has no body. *)
Definition request_ok (r : NodeRequest) : Prop :=
  forbidden_method (nr_method r) = false ∧
  (normalize_method (nr_method r) ≠ "GET" ∧ normalize_method (nr_method r) ≠ "HEAD" ∨
   request_body (nr_chunks r) = None).

Lemma make_request_built r p :
  request_ok r →
  make_request r p = inr (mkWebRequest (normalize_method (nr_method r)) ("http://localhost:" +:+ PORT +:+ p)
                                       (flatten_headers (nr_headers r)) (request_body (nr_chunks r))).
Proof.
  intros [Hf Hok]. unfold make_request. rewrite Hf.
  assert (Hg : bool_decide (normalize_method (nr_method r) = "GET" ∨ normalize_method (nr_method r) = "HEAD") &&
                bool_decide (is_Some (request_body (nr_chunks r))) = false).
  { apply andb_false_iff. destruct Hok as [[H1 H2]| ->]; [left|right]; apply bool_decide_eq_false_2; naive_solver. }
  by rewrite Hg.
Qed.

Lemma forward_built e r p :
  request_ok r →
  forward e r p =
    match ep_run e (mkWebRequest (normalize_method (nr_method r)) ("http://localhost:" +:+ PORT +:+ p)
                                 (flatten_headers (nr_headers r)) (request_body (nr_chunks r))) with
    | None => None
    | Some (inl err) => Some (server_error err)
    | Some (inr resp) => Some (mkOut (status resp) (app cors_headers [json_header]) (JsonText (body resp)))
    end.
Proof. intros Hok. unfold forward. by rewrite make_request_built. Qed.

Lemma serve_gemini_path g v r :
  nr_method r ≠ "OPTIONS" → pathname (nr_url r) = "/api/gemini" →
  serve g v r = forward g r "/api/gemini".
Proof. intros Hm%String.eqb_neq Hp. unfold serve. by rewrite Hm, Hp. Qed.

Lemma serve_video_path g v r :
  nr_method r ≠ "OPTIONS" → pathname (nr_url r) = "/api/video" →
  serve g v r = forward v r "/api/video".
Proof. intros Hm%String.eqb_neq Hp. unfold serve. by rewrite Hm, Hp. Qed.

(** ** Properties of the router *)

(** (C32) Headers reach the handler as the [reduce] leaves them: for a
    header listed once, an array value gives its first element ([None]
    standing for the [undefined] of an empty array), a non-empty string
    gives itself, and the empty string gives no entry; a header not listed
    is absent. *)
Theorem flatten_headers_lookup hs k :
  NoDup hs.*1 →
  flatten_headers hs !! k = match list_find (λ kv, kv.1 = k) hs with
                            | Some (_, (_, HStr s)) => if String.eqb s "" then None else Some (Some s)
                            | Some (_, (_, HArr vs)) => Some (head vs)
                            | None => None
                            end.
Proof.
  intros Hnd. unfold flatten_headers. destruct (list_find _ hs) as [[i [k' v]]|] eqn:Hf.
  - apply list_find_Some in Hf as (Hi & Hk & _). simpl in Hk. subst k'.
    rewrite (foldl_flatten_in hs ∅ k v Hnd) by (by eapply list_elem_of_lookup_2).
    destruct v as [s|vs]; simpl; [|done]. by destruct (String.eqb s "").
  - apply list_find_None in Hf. rewrite foldl_flatten_notin; [done|].
    intros (kv & -> & Hin)%list_elem_of_fmap. by apply (proj1 (Forall_forall _ _) Hf) in Hin.
Qed.

Definition sample_headers : list (string * HeaderValue) :=
  [("content-type", HStr "application/json"); ("x-empty", HStr ""); ("set-cookie", HArr ["a=1"; "b=2"])].

Lemma flatten_headers_lookup_witness :
  flatten_headers sample_headers !! "set-cookie" = Some (Some "a=1") ∧
  flatten_headers sample_headers !! "x-empty" = None.
Proof.
  split; rewrite flatten_headers_lookup by (vm_compute; repeat constructor; set_solver); reflexivity.
Defined.

(** Every answer of the router carries the three CORS headers, set
    before anything else. *)
Theorem serve_cors g v r out :
  serve g v r = Some out → cors_headers `prefix_of` out_headers out.
Proof.
  unfold serve. case_match; [intros [= <-]; done|].
  repeat case_match; try (intros [= <-]; by eexists);
    intros Hf%forward_headers; rewrite Hf; by eexists.
Qed.

Lemma serve_cors_witness :
  cors_headers `prefix_of` out_headers (mkOut 404 (app cors_headers [json_header]) (JsonText (error_json "Not Found"))).
Proof.
  apply (serve_cors (mkEndpoint (λ _, None)) (mkEndpoint (λ _, None)) (mkNodeRequest "GET" "/" [] [])).
  reflexivity.
Defined.

(** (C31) The router answers an [OPTIONS] preflight on any path with 200,
    the CORS headers and no body, and any other request to a path that is
    neither [/api/gemini] nor [/api/video] with 404 and [{ error: "Not Found" }]. *)
Theorem serve_local_answers g v r :
  (nr_method r = "OPTIONS" → serve g v r = Some (mkOut 200 cors_headers NoBody)) ∧
  (nr_method r ≠ "OPTIONS" → pathname (nr_url r) ≠ "/api/gemini" → pathname (nr_url r) ≠ "/api/video" →
   serve g v r = Some (mkOut 404 (app cors_headers [json_header]) (JsonText (error_json "Not Found")))).
Proof.
  unfold serve. split; [intros ->; done|]. intros Hm Hg Hv.
  apply String.eqb_neq in Hm, Hg, Hv. by rewrite Hm, Hg, Hv.
Qed.

Lemma serve_local_answers_witness :
  serve (mkEndpoint (λ _, None)) (mkEndpoint (λ _, None)) (mkNodeRequest "OPTIONS" "/api/video" [] []) =
    Some (mkOut 200 cors_headers NoBody).
Proof. apply (serve_local_answers _ _ (mkNodeRequest "OPTIONS" "/api/video" [] [])). reflexivity. Defined.

(** (C22) Proved against the [EndpointTyped] interface: when both endpoints
    answer typed bodies, every answer of the router to a request other than
    [OPTIONS] is a JSON text, of the endpoint's type for the status or the
    router's own [{ error: string }]. *)
Theorem serve_typed g v tg tv `{!EndpointTyped g tg, !EndpointTyped v tv} r out :
  serve g v r = Some out → nr_method r ≠ "OPTIONS" →
  ∃ j, out_body out = JsonText j ∧ has_type (route_type tg tv (pathname (nr_url r)) (out_status out)) j = true.
Proof.
  intros Hs Hm%String.eqb_neq. unfold serve, route_type in *. rewrite Hm in Hs.
  destruct (String.eqb (pathname (nr_url r)) "/api/gemini"); [by eapply forward_typed|].
  destruct (String.eqb (pathname (nr_url r)) "/api/video"); [by eapply forward_typed|].
  injection Hs as <-. by eexists.
Qed.

Definition sample_node_request : NodeRequest :=
  mkNodeRequest "POST" "/api/video?x=1" [("content-type", HStr "application/json")] ["{}"].

Lemma serve_typed_witness :
  ∃ j, out_body (mkOut 500 (app cors_headers [json_header]) (JsonText (error_json "API key not configured"))) = JsonText j ∧
       has_type (route_type gemini_body_type video_body_type "/api/video" 500) j = true.
Proof.
  apply (serve_typed (gemini_endpoint (λ _, None) None (λ _, inl NonError) (λ _, inl NonError))
                     (video_endpoint (λ _, None) None (λ _, inr sample_video) starts_unfinished never_done 3)
                     _ _ sample_node_request); reflexivity || discriminate.
Defined.

(** (C29) A [GET] or [HEAD] request with a body to either API path never
    reaches its handler: building the Web [Request] throws, and the router
    answers 500 with the [TypeError] message. *)
Theorem serve_get_with_body g v r :
  (nr_method r = "GET" ∨ nr_method r = "HEAD") → read_body (nr_chunks r) ≠ "" →
  (pathname (nr_url r) = "/api/gemini" ∨ pathname (nr_url r) = "/api/video") →
  serve g v r = Some (server_error (ErrorObj "Request with GET/HEAD method cannot have body.")).
Proof.
  intros Hm Hb Hp. apply String.eqb_neq in Hb.
  destruct r as [m url hs cs]; simpl in *.
  unfold serve, forward, make_request, request_body; simpl. rewrite Hb.
  destruct Hm as [-> | ->]; destruct Hp as [-> | ->]; reflexivity.
Qed.

Lemma serve_get_with_body_witness :
  serve (mkEndpoint (λ _, None)) (mkEndpoint (λ _, None)) (mkNodeRequest "GET" "/api/gemini" [] ["{}"]) =
    Some (server_error (ErrorObj "Request with GET/HEAD method cannot have body.")).
Proof. apply serve_get_with_body; simpl; auto; discriminate. Defined.

(** (C35) A request with a forbidden method ([CONNECT], [TRACE], [TRACK], in any
    case) to either API path never reaches its handler: the router answers
    500 with the [TypeError] message, not the handler's 405. *)
Theorem serve_forbidden_method g v r :
  nr_method r ≠ "OPTIONS" → forbidden_method (nr_method r) = true →
  (pathname (nr_url r) = "/api/gemini" ∨ pathname (nr_url r) = "/api/video") →
  serve g v r = Some (server_error (ErrorObj ("'" +:+ nr_method r +:+ "' HTTP method is unsupported."))).
Proof.
  intros Hm%String.eqb_neq Hf Hp. unfold serve, forward, make_request. rewrite Hm, Hf.
  destruct Hp as [-> | ->]; done.
Qed.

Lemma serve_forbidden_method_witness :
  serve (mkEndpoint (λ _, None)) (mkEndpoint (λ _, None)) (mkNodeRequest "TRACE" "/api/gemini" [] []) =
    Some (server_error (ErrorObj "'TRACE' HTTP method is unsupported.")).
Proof.
  apply (serve_forbidden_method _ _ (mkNodeRequest "TRACE" "/api/gemini" [] []));
    [discriminate | reflexivity | left; reflexivity].
Defined.

(** (C23) The router adds nothing to the Gemini handler's answer: a request
    to [/api/gemini] that is not [OPTIONS] and whose Web [Request] can be
    built (no forbidden method, no body on [GET] or [HEAD]) gets exactly the
    handler's status and its stringified body, the handler seeing the
    normalised method and the collected body. *)
Theorem serve_forwards_gemini jp k gb sdk v r :
  nr_method r ≠ "OPTIONS" → pathname (nr_url r) = "/api/gemini" →
  forbidden_method (nr_method r) = false →
  (normalize_method (nr_method r) ≠ "GET" ∧ normalize_method (nr_method r) ≠ "HEAD" ∨
   request_body (nr_chunks r) = None) →
  let h := handler jp (normalize_method (nr_method r)) k (gb (request_body (nr_chunks r))) sdk in
  serve (gemini_endpoint jp k gb sdk) v r =
    Some (mkOut (status h) (app cors_headers [json_header]) (JsonText (to_json (body h)))).
Proof. intros Hm Hp Hf Hok. by rewrite serve_gemini_path, forward_built by done. Qed.

Lemma serve_forwards_gemini_witness :
  serve (gemini_endpoint (λ _, None) (Some "key") (λ _, inr sample_body) (λ _, inr image_response))
        (mkEndpoint (λ _, None)) (mkNodeRequest "POST" "/api/gemini" [] ["{}"]) =
    Some (mkOut 200 (app cors_headers [json_header])
            (JsonText (to_json (body (handler (λ _, None) "POST" (Some "key") (inr sample_body) (λ _, inr image_response)))))).
Proof.
  apply (serve_forwards_gemini (λ _, None) (Some "key") (λ _, inr sample_body) (λ _, inr image_response)
           (mkEndpoint (λ _, None)) (mkNodeRequest "POST" "/api/gemini" [] ["{}"])); simpl; auto; discriminate.
Defined.
