(* ===== verification/Client.v ===== *)
(** * Client: the browser-side service of [src/services/geminiService.ts]

    [editImage] (lines 4-41) and [generateVideo] (lines 43-79) post a JSON
    body to [/api/gemini] and [/api/video], throw the server's [error] (or a
    fallback) when [response.ok] is false, and return the parsed answer or
    its [downloadLink]; their [catch] rethrows every failure as an [Error].
    [fetch] is an input: the answer of whatever serves the path ([None]
    when it never answers, [inl] when the network call rejects).  In the
    dev setup that is the Vite proxy in front of the router ([through]),
    and the end-to-end theorems compose the client, the proxy, the router
    of [Server] and the handlers of [Gemini] and [Video]. *)

From stdpp Require Import list strings.
From Stdlib Require Import ZArith Lia.
From S2P Require Import Prelude Http Gemini Video Json Server.

Local Open Scope string_scope.

(** ** Operations *)

(** [response.ok]: a status in 200-299. *)
Definition response_ok (s : Z) : bool := (200 <=? s)%Z && (s <=? 299)%Z.

(** [await response.json()]: an empty body is a [SyntaxError]. *)
Definition response_json (w : Wire) : JsError + json :=
  match w with
  | NoBody => inl (ErrorObj "Unexpected end of JSON input")
  | JsonText j => inr j
  end.

(** Lines 26-29 and 64-67:
    [if (!response.ok) { const errorData = await response.json();
    throw new Error(errorData.error || fallback) }]. *)
Definition check_ok (fallback : string) (resp : ServerOut) : JsError + unit :=
  if response_ok (out_status resp) then inr ()
  else
    errorData ← response_json (out_body resp);
    e ← jprop errorData "error";
    inl (ErrorObj (match e with Some v => if jtruthy e then jstring_of v else fallback | None => fallback end)).

Section Client.
(** [JSON.stringify] of the request bodies. *)
Variable stringify : json → string.
(** [fetch(path, { method: 'POST', headers, body })]. *)
Variable fetch : NodeRequest → option (JsError + ServerOut).

Definition post (path : string) (payload : json) : NodeRequest :=
  mkNodeRequest "POST" path [("content-type", HStr "application/json")] [stringify payload].

(** Lines 17-23. *)
Definition edit_payload (base64ImageData mimeType prompt : string) (maskBase64 : option string)
    (secondaryImage : option (string * string)) : json :=
  jobject [("base64ImageData", jstring base64ImageData); ("mimeType", jstring mimeType);
           ("prompt", jstring prompt); ("maskBase64", opt_json maskBase64);
           ("secondaryImage", match secondaryImage with
                              | Some (b, m) => jobject [("base64", jstring b); ("mimeType", jstring m)]
                              | None => jnull
                              end)].

Definition editImage (base64ImageData mimeType prompt : string) (maskBase64 : option string)
    (secondaryImage : option (string * string)) : option (JsError + json) :=
  (λ answer, rethrow "An unknown error occurred while communicating with the API."
     (response ← answer;
      _ ← check_ok "Failed to process image" response;
      response_json (out_body response)))
  <$> fetch (post "/api/gemini" (edit_payload base64ImageData mimeType prompt maskBase64 secondaryImage)).

(** Lines 57-61. *)
Definition video_payload (prompt : string) (image : option (string * string)) (aspectRatio : string) : json :=
  jobject [("prompt", jstring prompt);
           ("image", match image with
                     | Some (b, m) => jobject [("base64", jstring b); ("mimeType", jstring m)]
                     | None => jnull
                     end);
           ("aspectRatio", jstring aspectRatio)].

(** The messages given to [onProgress], and the outcome: [result.downloadLink],
    [None] inside being [undefined]. *)
Definition generateVideo (prompt : string) (image : option (string * string)) (aspectRatio : string)
    : list string * option (JsError + option json) :=
  (["Initializing video generation..."],
   (λ answer, rethrow "An unknown error occurred during video generation."
      (response ← answer;
       _ ← check_ok "Failed to generate video" response;
       result ← response_json (out_body response);
       jprop result "downloadLink"))
   <$> fetch (post "/api/video" (video_payload prompt image aspectRatio))).
End Client.

(** The dev setup: the Vite proxy in front of the router, or in front of
    nothing when the router is not running. *)
Definition through (g v : Endpoint) (rq : NodeRequest) : option (JsError + ServerOut) :=
  (λ out, inr (vite_proxy (inr out))) <$> serve g v rq.

Definition router_down (_ : NodeRequest) : option (JsError + ServerOut) :=
  Some (inr (vite_proxy (inl (ErrorObj "connect ECONNREFUSED 127.0.0.1:3000")))).

(** ** Lemmas *)

(** The Gemini handler answers 200 exactly with a result, and a status
    that is not [ok] with an error. *)
Lemma gemini_answer_shape jp method k b sdk :
  let h := handler jp method k b sdk in
  (∃ i t, body h = ResultBody i t ∧ status h = 200%Z) ∨
  (∃ m, body h = ErrorBody m ∧ response_ok (status h) = false).
Proof. unfold handler, handle_error. repeat case_match; simpl; eauto 10. Qed.

Lemma video_answer_shape jp method k b gen polls fuel r :
  video_handler jp method k b gen polls fuel = Some r →
  (∃ l, body r = DownloadBody l ∧ status r = 200%Z) ∨
  (∃ m, body r = VErrorBody m ∧ response_ok (status r) = false).
Proof. unfold video_handler, handle_video_error. intros H. repeat case_match; simplify_eq/=; eauto 10. Qed.

Lemma check_ok_error fallback s hs m :
  response_ok s = false →
  check_ok fallback (mkOut s hs (JsonText (error_json m))) =
    inl (ErrorObj (if String.eqb m "" then fallback else m)).
Proof. intros Hs. unfold check_ok. cbn [out_status out_body]. rewrite Hs. simpl. by destruct (String.eqb m ""). Qed.

Lemma check_ok_ok fallback s hs w : response_ok s = true → check_ok fallback (mkOut s hs w) = inr ().
Proof. intros Hs. unfold check_ok. cbn [out_status]. by rewrite Hs. Qed.

Lemma post_method stringify path payload : normalize_method (nr_method (post stringify path payload)) = "POST".
Proof. reflexivity. Qed.

Lemma post_built stringify path payload : request_ok (post stringify path payload).
Proof. split; [done|]. left. done. Qed.

(** ** End to end *)

(** (C14) Through the proxy and the router, [editImage] resolves with the
    Gemini handler's [GeneratedContent] exactly when the handler produced
    one, and otherwise rejects with the handler's error message (or
    ['Failed to process image'] when that message is empty). *)
Theorem editImage_end_to_end stringify jp k gb sdk v b64 mt p mask sec :
  let h := handler jp "POST" k (gb (request_body [stringify (edit_payload b64 mt p mask sec)])) sdk in
  editImage stringify (through (gemini_endpoint jp k gb sdk) v) b64 mt p mask sec =
    Some (match body h with
          | ResultBody i t => inr (to_json (ResultBody i t))
          | ErrorBody m => inl (ErrorObj (if String.eqb m "" then "Failed to process image" else m))
          end).
Proof.
  unfold editImage, through. rewrite serve_gemini_path, forward_built, post_method by (done || apply post_built).
  simpl. destruct (gemini_answer_shape jp "POST" k (gb (request_body [stringify (edit_payload b64 mt p mask sec)])) sdk)
    as [(i & t & Hb & Hs)|(m & Hb & Hs)]; rewrite Hb; cbn -[check_ok error_json response_ok handler].
  - by rewrite check_ok_ok by (rewrite Hs; done).
  - rewrite check_ok_error by done. by destruct (String.eqb m "").
Qed.

(** (C19) Through the proxy and the router, [generateVideo] reports its one
    progress message and then settles as the video handler does: with the
    handler's link when it answers 200, with the handler's error message
    (or ['Failed to generate video'] when empty) otherwise, and never when
    the handler never answers. *)
Theorem generateVideo_end_to_end stringify jp k vb gen polls fuel g p img ar :
  let answer := video_handler jp "POST" k (vb (request_body [stringify (video_payload p img ar)])) gen polls fuel in
  generateVideo stringify (through g (video_endpoint jp k vb gen polls fuel)) p img ar =
    (["Initializing video generation..."],
     (λ r, match body r with
           | DownloadBody l => inr (Some (jstring l))
           | VErrorBody m => inl (ErrorObj (if String.eqb m "" then "Failed to generate video" else m))
           end) <$> answer).
Proof.
  unfold generateVideo, through. rewrite serve_video_path, forward_built, post_method by (done || apply post_built).
  cbn -[check_ok error_json response_ok video_handler].
  destruct (video_handler _ _ _ _ _ _ _) as [r|] eqn:Hv; [|done]. cbn -[check_ok error_json response_ok].
  destruct (video_answer_shape _ _ _ _ _ _ _ _ Hv) as [(l & Hb & Hs)|(m & Hb & Hs)]; rewrite Hb;
    cbn -[check_ok error_json response_ok].
  - by rewrite check_ok_ok by (rewrite Hs; done).
  - rewrite check_ok_error by done. by destruct (String.eqb m "").
Qed.

(** (C30) The hang reaches the user: through the proxy and the router, when
    the operation starts unfinished and no poll ever reports it done,
    [generateVideo] shows its progress message and never settles, whatever
    the fuel. *)
Theorem generateVideo_hangs stringify jp k vb gen polls fuel g p img ar b op0 :
  truthy k = true → vb (request_body [stringify (video_payload p img ar)]) = inr b →
  gen (build_request b) = inr op0 → op_done op0 = false →
  (∀ i, ∃ op, polls i = inr op ∧ op_done op = false) →
  generateVideo stringify (through g (video_endpoint jp k vb gen polls fuel)) p img ar =
    (["Initializing video generation..."], None).
Proof.
  intros Hk Hb Hg H0 Hpolls. unfold generateVideo, through.
  rewrite serve_video_path, forward_built, post_method by (done || apply post_built).
  cbn -[video_handler]. unfold video_handler. simpl. rewrite Hk, Hb, Hg. simpl.
  by rewrite (poll_loop_none polls fuel 0 op0 Hpolls H0).
Qed.

Lemma generateVideo_hangs_witness :
  generateVideo (λ _, "{}") (through (mkEndpoint (λ _, None))
    (video_endpoint (λ _, None) (Some "key") (λ _, inr sample_video) starts_unfinished never_done 50))
    "a cat" None "16:9" = (["Initializing video generation..."], None).
Proof.
  apply (generateVideo_hangs _ _ _ _ _ _ _ _ _ _ _ sample_video (mkOperation false None None)); try done.
  intros i. by eexists.
Defined.

(** When the router is not running, the proxy's 500 reaches the
    client: both calls reject with the proxy's message. *)
Theorem client_router_down stringify b64 mt p mask sec vp img ar :
  editImage stringify router_down b64 mt p mask sec = Some (inl (ErrorObj proxy_message)) ∧
  (generateVideo stringify router_down vp img ar).2 = Some (inl (ErrorObj proxy_message)).
Proof. split; reflexivity. Qed.
